(** * Feature-driven segmentation notebook: dataset wrapper, training loop, metrics

    A shallow embedding of [transformer_representation_part_2_exercise.ipynb]:
    the [TiffDataset] class (cell "dataset class definition"), the sizes of
    the DINOv2 input, the training loop and the per-epoch metric computation.

    Conventions.
    - numpy / torch integer arrays are nested lists of [Z]; an array of
      shape (N, H, W) is a [list (list (list Z))].
    - float64 / float32 values are idealised as real numbers: [R] where the
      code can only produce a finite value, [float] (a real or [NaN]) where a
      division by zero is possible.  Rounding is not modelled.
    - a Python exception is a [Raise e] in the [result] monad.
    - functions of libraries whose result the notebook only passes along
      (the bilinear resampling kernel, the transformer, the metrics
      package) and the blanks the notebook leaves to its reader (the network,
      the optimizer, the loss) are fields of the classes [Torchvision] and
      [Notebook]. *)

From Stdlib Require Import List ZArith Reals Lia Lra Bool Arith Sorted
  Permutation.
Import ListNotations.

Open Scope Z_scope.

(** ** Exceptions *)

Inductive exn : Type :=
| IndexError
| ValueError
| ZeroDivisionError
| RuntimeError
| AssertionError.

Inductive result (A : Type) : Type :=
| Ok (a : A)
| Raise (e : exn).

Arguments Ok {A} a.
Arguments Raise {A} e.

Definition bind {A B : Type} (m : result A) (k : A -> result B) : result B :=
  match m with
  | Ok a => k a
  | Raise e => Raise e
  end.

Notation "x <- m ;; k" := (bind m (fun x => k))
  (at level 61, m at next level, right associativity).
Notation "' p <- m ;; k" := (bind m (fun x => match x with p => k end))
  (at level 61, p pattern, m at next level, right associativity).

Fixpoint mapM {A B : Type} (f : A -> result B) (l : list A) : result (list B) :=
  match l with
  | [] => Ok []
  | a :: t => b <- f a ;; bs <- mapM f t ;; Ok (b :: bs)
  end.

Fixpoint foldM {A S : Type} (f : S -> A -> result S) (l : list A) (s : S) : result S :=
  match l with
  | [] => Ok s
  | a :: t => s' <- f s a ;; foldM f t s'
  end.

(** ** Floating-point values

    [NaN] is the value numpy and torch produce for 0/0; every operation on it
    yields [NaN] again.  The code below never divides a non-zero value by
    zero, so infinities are not represented. *)

Inductive float : Type :=
| Num (x : R)
| NaN.

Definition fsub (a b : float) : float :=
  match a, b with
  | Num x, Num y => Num (x - y)
  | _, _ => NaN
  end.

Definition fdiv (a b : float) : float :=
  match a, b with
  | Num x, Num y => if Req_dec_T y 0 then NaN else Num (x / y)
  | _, _ => NaN
  end.

(** [a / b] on integer operands (numpy true division). *)
Definition true_divide (a b : Z) : float :=
  if b =? 0 then NaN else Num (IZR a / IZR b).

Definition Rsum (l : list R) : R := fold_right Rplus 0%R l.

Definition Rmean (l : list R) : R := (Rsum l / INR (length l))%R.

(** numpy's [std]: the square root of the mean squared deviation (ddof = 0). *)
Definition Rstd (l : list R) : R :=
  sqrt (Rmean (map (fun x => ((x - Rmean l) * (x - Rmean l))%R) l)).

Fixpoint all_num (l : list float) : option (list R) :=
  match l with
  | [] => Some []
  | Num x :: t => option_map (cons x) (all_num t)
  | NaN :: _ => None
  end.

(** [ndarray.mean()] and [ndarray.std()] of a flat float array; the mean of
    an empty array is nan. *)
Definition fmean (l : list float) : float :=
  match all_num l with
  | Some (x :: t) => Num (Rmean (x :: t))
  | _ => NaN
  end.

Definition fstd (l : list float) : float :=
  match all_num l with
  | Some (x :: t) => Num (Rstd (x :: t))
  | _ => NaN
  end.

(** ** numpy helpers *)

(** [a.min()] and [a.max()] of a flat array; a zero-size array has neither. *)
Definition amin (a : list Z) : result Z :=
  match a with
  | [] => Raise ValueError
  | x :: t => Ok (fold_left Z.min t x)
  end.

Definition amax (a : list Z) : result Z :=
  match a with
  | [] => Raise ValueError
  | x :: t => Ok (fold_left Z.max t x)
  end.

(** [a[index]] along the first axis, with Python's negative indices. *)
Definition np_index {A : Type} (a : list A) (index : Z) : result A :=
  let n := Z.of_nat (length a) in
  let i := if index <? 0 then index + n else index in
  if (0 <=? i) && (i <? n) then
    match nth_error a (Z.to_nat i) with
    | Some x => Ok x
    | None => Raise IndexError
    end
  else Raise IndexError.

(** [np.unique(a, return_counts=True)]: the sorted distinct values of the
    flattened array, each with its number of occurrences. *)
Fixpoint count_in (x : Z) (u : list (Z * Z)) : list (Z * Z) :=
  match u with
  | [] => [(x, 1)]
  | (y, n) :: t =>
      if x <? y then (x, 1) :: (y, n) :: t
      else if x =? y then (y, n + 1) :: t
      else (y, n) :: count_in x t
  end.

Definition unique_counts (a : list Z) : list (Z * Z) :=
  fold_right count_in [] a.

Definition unique (a : list Z) : list Z := map fst (unique_counts a).

Definition arange (n : Z) : list Z := map Z.of_nat (seq 0 (Z.to_nat n)).

(** [range(start, stop, step)] for a positive step. *)
Definition range_step (start stop step : nat) : list nat :=
  map (fun k => (start + k * step)%nat)
      (seq 0 ((stop - start + step - 1) / step)%nat).

(** [a[i : j]] for [0 <= i <= j]. *)
Definition slice {A : Type} (a : list A) (i j : nat) : list A :=
  firstn (j - i) (skipn i a).

(** ** Arrays *)

Definition mask_hw : Type := list (list Z).          (* H x W *)
Definition image_hwc : Type := list (list (list Z)). (* H x W x C, as read *)
Definition tensor_chw (A : Type) : Type := list (list (list A)). (* C x H x W *)

Definition ravel2 {A : Type} (a : list (list A)) : list A := concat a.
Definition ravel3 {A : Type} (a : list (list (list A))) : list A :=
  concat (concat a).
Definition ravel4 {A : Type} (a : list (list (list (list A)))) : list A :=
  concat (concat (concat a)).

(** Height and width of a C x H x W tensor. *)
Definition height {A : Type} (t : tensor_chw A) : Z :=
  Z.of_nat (length (hd [] t)).
Definition width {A : Type} (t : tensor_chw A) : Z :=
  Z.of_nat (length (hd [] (hd [] t))).

(** [np.expand_dims(mask, axis=-1)]: (H, W) to (H, W, 1). *)
Definition expand_dims (m : mask_hw) : image_hwc :=
  map (map (fun v => [v])) m.

(** [ToImage]: a channel-last numpy array becomes a channel-first tensor. *)
Definition to_image (a : image_hwc) : tensor_chw Z :=
  let c := length (hd [] (hd [] a)) in
  map (fun k => map (map (fun px => nth k px 0)) a) (seq 0 c).

(** [mask.squeeze(0)] on a 1 x H x W tensor.  (torch leaves a tensor whose
    first dimension is not 1 unchanged, which the result type here cannot
    hold; the transform only squeezes the one-channel mask.) *)
Definition squeeze0 {A : Type} (t : tensor_chw A) : list (list A) :=
  match t with
  | [plane] => plane
  | _ => []
  end.

(** ** torchvision.transforms.v2.functional *)

(** What the notebook takes from torchvision without looking inside:
    the value range of the image dtype ([to_dtype] with [scale=True] divides
    by it) and the bilinear kernel that [resize] applies to the image by
    default ([bilinear_kernel t new_h new_w]). *)
Class Torchvision : Type := {
  image_max_value : Z;
  bilinear_kernel : tensor_chw Z -> Z -> Z -> tensor_chw Z
}.

(** Output size of [resize] for an integer [size]: the smaller edge is
    matched to [size], the other one keeps the aspect ratio,
    [int(size * long / short)]. *)
Definition compute_resized_output_size (h w size : Z) : result (Z * Z) :=
  let '(short, long) := if w <=? h then (w, h) else (h, w) in
  if short =? 0 then Raise ZeroDivisionError
  else
    let new_short := size in
    let new_long := Z.quot (size * long) short in
    let '(new_w, new_h) :=
      if w <=? h then (new_short, new_long) else (new_long, new_short) in
    Ok (new_h, new_w).

(** Source index of the nearest-exact mode:
    [min(floor((dst + 0.5) * in / out), in - 1)]. *)
Definition nearest_exact_idx (dst in_size out_size : Z) : Z :=
  Z.min (((2 * dst + 1) * in_size) / (2 * out_size)) (in_size - 1).

Definition interpolate_nearest_exact (t : tensor_chw Z) (new_h new_w : Z)
  : tensor_chw Z :=
  let h := height t in
  let w := width t in
  map (fun plane =>
         map (fun i =>
                let row := nth (Z.to_nat (nearest_exact_idx i h new_h)) plane [] in
                map (fun j => nth (Z.to_nat (nearest_exact_idx j w new_w)) row 0)
                    (arange new_w))
             (arange new_h))
      t.

Inductive InterpolationMode : Type :=
| BILINEAR
| NEAREST_EXACT.

(** [resize(t, size=size, interpolation=mode)]: nothing is resampled when
    the computed size is the size the tensor already has. *)
Definition resize `{Torchvision} (t : tensor_chw Z) (size : Z)
    (mode : InterpolationMode) : result (tensor_chw Z) :=
  let old_h := height t in
  let old_w := width t in
  '(new_h, new_w) <- compute_resized_output_size old_h old_w size ;;
  if (new_h =? old_h) && (new_w =? old_w) then Ok t
  else if (new_h <=? 0) || (new_w <=? 0) then Raise RuntimeError
  else
    match mode with
    | BILINEAR => Ok (bilinear_kernel t new_h new_w)
    | NEAREST_EXACT => Ok (interpolate_nearest_exact t new_h new_w)
    end.

(** [to_dtype(image, dtype=torch.float32, scale=True)]. *)
Definition to_dtype_float `{Torchvision} (t : tensor_chw Z) : tensor_chw R :=
  map (map (map (fun v => (IZR v / IZR image_max_value)%R))) t.

(** [to_dtype(mask, dtype=torch.long, scale=False)]: the values are kept. *)
Definition to_dtype_long (t : tensor_chw Z) : tensor_chw Z :=
  map (map (map (fun v => v))) t.

Definition float_is_zero (s : float) : bool :=
  match s with
  | Num y => if Req_dec_T y 0 then true else false
  | NaN => false
  end.

(** [normalize(image, mean, std)] with scalar statistics: a zero [std] is
    refused, a nan one is not. *)
Definition normalize (t : tensor_chw R) (mean std : float)
  : result (tensor_chw float) :=
  if float_is_zero std then Raise ValueError
  else Ok (map (map (map (fun x => fdiv (fsub (Num x) mean) std))) t).

(** ** The dataset class *)

Definition num_classes : Z := 7.

Record TiffDataset : Type := mkTiffDataset {
  images : list image_hwc;
  gt_masks : list mask_hw;
  input_size : Z;
  train : bool;
  img_h : Z;
  img_w : Z;
  mean : float;
  std : float
}.

(** [get_mean_std]: statistics of the min-max scaled image stack. *)
Definition get_mean_std (imgs : list image_hwc) : result (float * float) :=
  _min <- amin (ravel4 imgs) ;;
  _max <- amax (ravel4 imgs) ;;
  let scaled_imgs :=
    map (fun x => true_divide (x - _min) (_max - _min)) (ravel4 imgs) in
  Ok (fmean scaled_imgs, fstd scaled_imgs).

(** [get_class_weights]: normalised inverse label frequencies. *)
Definition get_class_weights (masks : list mask_hw) : list R :=
  let weights := map snd (unique_counts (ravel3 masks)) in
  let weights := map (fun n => (1 / IZR n)%R) weights in
  map (fun w => (w / Rsum weights)%R) weights.

(** [__init__], on the two arrays read from the TIFF files. *)
Definition TiffDataset_init (imgs : list image_hwc) (masks : list mask_hw)
    (size : Z) (is_train : bool) : result TiffDataset :=
  '(m, s) <- get_mean_std imgs ;;
  Ok {| images := imgs;
        gt_masks := masks;
        input_size := size;
        train := is_train;
        img_h := Z.of_nat (length (hd [] imgs));
        img_w := Z.of_nat (length (hd [] (hd [] imgs)));
        mean := m;
        std := s |}.

(** Attribute assignment, as the evaluation cell does on its dataset. *)
Definition set_mean (self : TiffDataset) (m : float) : TiffDataset :=
  {| images := images self; gt_masks := gt_masks self;
     input_size := input_size self; train := train self;
     img_h := img_h self; img_w := img_w self;
     mean := m; std := std self |}.

Definition set_std (self : TiffDataset) (s : float) : TiffDataset :=
  {| images := images self; gt_masks := gt_masks self;
     input_size := input_size self; train := train self;
     img_h := img_h self; img_w := img_w self;
     mean := mean self; std := s |}.

(** The evaluation cell: the test dataset is built from its own files and
    then given the normalisation statistics of the train dataset. *)
Definition evaluation_dataset (train_dataset : TiffDataset)
    (imgs : list image_hwc) (masks : list mask_hw) (size : Z)
  : result TiffDataset :=
  test_dataset <- TiffDataset_init imgs masks size false ;;
  Ok (set_std (set_mean test_dataset (mean train_dataset)) (std train_dataset)).

Definition len (self : TiffDataset) : Z := Z.of_nat (length (images self)).

Definition isin (v : Z) (l : list Z) : bool := existsb (Z.eqb v) l.

(** [apply_transform].  The image read with [to_rgb=True] is three
    dimensional and the mask two dimensional, so only the mask gets a
    channel axis added. *)
Definition apply_transform `{Torchvision} (self : TiffDataset)
    (image : image_hwc) (mask : mask_hw)
  : result (tensor_chw float * mask_hw) :=
  let mask := expand_dims mask in
  let image := to_image image in
  let mask := to_image mask in
  image <- resize image (input_size self) BILINEAR ;;
  mask <- resize mask (input_size self) NEAREST_EXACT ;;
  let image := to_dtype_float image in
  let mask := to_dtype_long mask in
  image <- normalize image (mean self) (std self) ;;
  if forallb (fun v => isin v (arange 7)) (unique (ravel3 mask))
  then Ok (image, squeeze0 mask)
  else Raise AssertionError.

Definition getitem `{Torchvision} (self : TiffDataset) (index : Z)
  : result (tensor_chw float * mask_hw) :=
  image <- np_index (images self) index ;;
  mask <- np_index (gt_masks self) index ;;
  apply_transform self image mask.

(** ** Sizes of the transformer input *)

Definition feature_dim : Z := 384.
Definition patch_size : Z := 14.
Definition num_patches : Z := 30.
(** The notebook's global [input_size] ("Dino input image size"); the name
    [input_size] is the dataset's attribute here. *)
Definition dino_input_size : Z := patch_size * num_patches.

(** ** torch.nn.functional.interpolate, mode bilinear, align_corners=False *)

(** Source position of output index [dst]:
    [src = max((dst + 0.5) * in / out - 0.5, 0)], split into the lower
    neighbour, the upper neighbour and the weight of the upper one. *)
Definition bilinear_source (dst in_size out_size : Z) : Z * Z * R :=
  let n := Z.max 0 ((2 * dst + 1) * in_size - out_size) in
  let d := 2 * out_size in
  let i0 := Z.min (n / d) (in_size - 1) in
  let i1 := if i0 <? in_size - 1 then i0 + 1 else i0 in
  let lam := Rmin (Rmax (IZR n / IZR d - IZR i0) 0) 1 in
  (i0, i1, lam).

Definition pixel (plane : list (list R)) (i j : Z) : R :=
  nth (Z.to_nat j) (nth (Z.to_nat i) plane []) 0%R.

Definition bilinear_pixel (plane : list (list R)) (h w size i j : Z) : R :=
  let '(h0, h1, lh) := bilinear_source i h size in
  let '(w0, w1, lw) := bilinear_source j w size in
  ((1 - lh) * ((1 - lw) * pixel plane h0 w0 + lw * pixel plane h0 w1)
   + lh * ((1 - lw) * pixel plane h1 w0 + lw * pixel plane h1 w1))%R.

(** [F.interpolate(out, size=size, mode="bilinear", align_corners=False)]
    on the logits of one image; an integer [size] is used for both axes. *)
Definition interpolate_bilinear (t : tensor_chw R) (size : Z)
  : result (tensor_chw R) :=
  let h := height t in
  let w := width t in
  if (h <=? 0) || (w <=? 0) || (size <=? 0) then Raise RuntimeError
  else
    Ok (map (fun plane =>
               map (fun i => map (fun j => bilinear_pixel plane h w size i j)
                                 (arange size))
                   (arange size))
            t).

(** [argmax]: position of the first largest entry. *)
Fixpoint argmax_from (best : R) (best_i i : Z) (l : list R) : Z :=
  match l with
  | [] => best_i
  | x :: t =>
      if Rlt_dec best x then argmax_from x i (i + 1) t
      else argmax_from best best_i (i + 1) t
  end.

Definition argmax (l : list R) : Z :=
  match l with
  | [] => 0
  | x :: t => argmax_from x 0 1 t
  end.

(** [out_upscaled.argmax(dim=1)] for one image: the class of every pixel. *)
Definition argmax_classes (t : tensor_chw R) : mask_hw :=
  map (fun i => map (fun j => argmax (map (fun plane => pixel plane i j) t))
                    (arange (width t)))
      (arange (height t)).

(** ** What the notebook leaves open

    The pretrained transformer, the metrics package and the random order of
    the data loader come from outside; the network (Task 1.1), the optimizer
    and the loss (Task 1.2) are blanks for the reader.  [optim_has_dino] and
    [optim_has_net] say which parameters the reader hands to the optimizer;
    [net_backward] and [dino_backward] give the gradient that
    [loss.backward()] leaves on a parameter, from the one already there. *)
Class Notebook : Type := {
  dino_weights : Type;
  dino_grad : Type;
  features : Type;
  get_intermediate_layers : dino_weights -> list (tensor_chw float) -> features;
  dino_backward :
    dino_weights -> list (tensor_chw float) -> list mask_hw ->
    option dino_grad -> dino_grad;
  net_weights : Type;
  net_grad : Type;
  Net : net_weights -> features -> list (tensor_chw R);
  net_backward :
    net_weights -> features -> list mask_hw -> option net_grad -> net_grad;
  optim_state : Type;
  optim_has_dino : bool;
  optim_has_net : bool;
  optim_update_dino : optim_state -> dino_weights -> dino_grad -> dino_weights;
  optim_update_net : optim_state -> net_weights -> net_grad -> net_weights;
  optim_next : optim_state -> optim_state;
  loss_fn : list (tensor_chw R) -> list mask_hw -> R;
  get_stats :
    list mask_hw -> list mask_hw -> Z ->
    list (list Z) * list (list Z) * list (list Z) * list (list Z);
  accuracy : Z -> Z -> Z -> Z -> R;
  f1_score : Z -> Z -> Z -> Z -> R;
  iou_score : Z -> Z -> Z -> Z -> R;
  sampler : nat -> list Z
}.

(** A module: its parameters and the [.grad] attribute they carry. *)
Record module (W G : Type) : Type := mkModule {
  weights : W;
  grad : option G
}.

Arguments mkModule {W G} weights grad.
Arguments weights {W G} m.
Arguments grad {W G} m.

(** The variables the training cell reads and writes. *)
Record train_state `{Notebook} : Type := mkState {
  dinov2 : module dino_weights dino_grad;
  model : module net_weights net_grad;
  optim : optim_state;
  losses : list R;
  tps : list (list (list Z));
  fps : list (list (list Z));
  fns : list (list (list Z));
  tns : list (list (list Z))
}.

(** A tensor together with what autograd recorded about it: whether the
    graph that produced it reaches the transformer's parameters. *)
Record traced `{Notebook} : Type := mkTraced {
  value : features;
  through_dino : bool
}.

(** The transformer's forward pass; under [torch.no_grad()]
    ([grad_enabled = false]) no graph is recorded. *)
Definition forward_dinov2 `{Notebook} (grad_enabled : bool) (st : train_state)
    (image : list (tensor_chw float)) : traced :=
  {| value := get_intermediate_layers (weights (dinov2 st)) image;
     through_dino := grad_enabled |}.

Definition with_modules `{Notebook} (st : train_state)
    (d : module dino_weights dino_grad) (m : module net_weights net_grad)
    (o : optim_state) : train_state :=
  {| dinov2 := d; model := m; optim := o; losses := losses st;
     tps := tps st; fps := fps st; fns := fns st; tns := tns st |}.

(** [optim.zero_grad()]: the gradients of the optimizer's parameters are
    reset to [None]. *)
Definition zero_grad `{Notebook} (st : train_state) : train_state :=
  with_modules st
    (if optim_has_dino then mkModule (weights (dinov2 st)) None else dinov2 st)
    (if optim_has_net then mkModule (weights (model st)) None else model st)
    (optim st).

(** [loss.backward()]: a gradient reaches the parameters the recorded graph
    leads to. *)
Definition backward `{Notebook} (st : train_state) (f : traced)
    (image : list (tensor_chw float)) (gt_masks : list mask_hw) : train_state :=
  with_modules st
    (if through_dino f
     then mkModule (weights (dinov2 st))
            (Some (dino_backward (weights (dinov2 st)) image gt_masks
                     (grad (dinov2 st))))
     else dinov2 st)
    (mkModule (weights (model st))
       (Some (net_backward (weights (model st)) (value f) gt_masks
                (grad (model st)))))
    (optim st).

(** [optim.step()]: each parameter of the optimizer that has a gradient is
    updated; one without gradient is skipped. *)
Definition step `{Notebook} (st : train_state) : train_state :=
  with_modules st
    (match optim_has_dino, grad (dinov2 st) with
     | true, Some g =>
         mkModule (optim_update_dino (optim st) (weights (dinov2 st)) g) (Some g)
     | _, _ => dinov2 st
     end)
    (match optim_has_net, grad (model st) with
     | true, Some g =>
         mkModule (optim_update_net (optim st) (weights (model st)) g) (Some g)
     | _, _ => model st
     end)
    (optim_next (optim st)).

Definition sample : Type := (tensor_chw float * mask_hw)%type.

(** The body of the training loop for one batch; [size] is the notebook's
    global [input_size].  Plotting is left out. *)
Definition train_batch_with `{Notebook} (grad_enabled : bool) (size : Z)
    (st : train_state) (batch : list sample) : result train_state :=
  let image := map fst batch in
  let gt_masks := map snd batch in
  let feats := forward_dinov2 grad_enabled st image in
  let out := Net (weights (model st)) (value feats) in
  out_upscaled <- mapM (fun o => interpolate_bilinear o size) out ;;
  let loss := loss_fn out_upscaled gt_masks in
  let st := zero_grad st in
  let st := backward st feats image gt_masks in
  let st := step st in
  let '(tp, fp, fn, tn) :=
    get_stats (map argmax_classes out_upscaled) gt_masks num_classes in
  Ok {| dinov2 := dinov2 st; model := model st; optim := optim st;
        losses := losses st ++ [loss];
        tps := tps st ++ [tp]; fps := fps st ++ [fp];
        fns := fns st ++ [fn]; tns := tns st ++ [tn] |}.

(** The notebook runs the transformer inside [with torch.no_grad()]. *)
Definition train_batch `{Notebook} : Z -> train_state -> list sample ->
                                     result train_state :=
  train_batch_with false.

(** ** DataLoader *)

(** [len(loader)]: the number of batches of one pass (no [drop_last]). *)
Definition loader_len (n batch_size : nat) : nat :=
  ((n + batch_size - 1) / batch_size)%nat.

(** The index batches of one pass over the indices in [order]. *)
Definition loader_batches (order : list Z) (batch_size : nat) : list (list Z) :=
  map (fun k => slice order (k * batch_size) (k * batch_size + batch_size))
      (seq 0 (loader_len (length order) batch_size)).

(** One pass of [for batch_idx, (image, gt_masks) in enumerate(train_loader)]:
    every batch is fetched from the dataset, then trained on. *)
Definition train_epoch `{Torchvision} `{Notebook} (ds : TiffDataset)
    (batch_size : nat) (size : Z) (st : train_state) (e : nat)
  : result train_state :=
  foldM (fun st idxs =>
           batch <- mapM (getitem ds) idxs ;;
           train_batch size st batch)
        (loader_batches (sampler e) batch_size) st.

(** [for e in range(epochs)]. *)
Definition train_loop `{Torchvision} `{Notebook} (ds : TiffDataset)
    (batch_size : nat) (size : Z) (epochs : nat) (st : train_state)
  : result train_state :=
  foldM (train_epoch ds batch_size size) (seq 0 epochs) st.

(** ** Metrics of the training run (cell "calculate metrics") *)

Fixpoint zip4 {A B : Type} (f : A -> A -> A -> A -> B)
    (a b c d : list A) : list B :=
  match a, b, c, d with
  | x :: a', y :: b', z :: c', u :: d' => f x y z u :: zip4 f a' b' c' d'
  | _, _, _, _ => []
  end.

(** A metric with [reduction=None]: one score per image and class. *)
Definition score_tensor (f : Z -> Z -> Z -> Z -> R)
    (tp fp fn tn : list (list Z)) : list (list R) :=
  zip4 (zip4 f) tp fp fn tn.

(** [.mean(dim=0)] of an images x classes tensor. *)
Definition mean_dim0 (m : list (list R)) : list R :=
  map (fun c => Rmean (map (fun row => nth c row 0%R) m))
      (seq 0 (length (hd [] m))).

Definition epoch_metric (f : Z -> Z -> Z -> Z -> R)
    (tp fp fn tn : list (list (list Z))) (i num_batches : nat) : list R :=
  let epoch_tp := concat (slice tp i (i + num_batches)) in
  let epoch_fp := concat (slice fp i (i + num_batches)) in
  let epoch_fn := concat (slice fn i (i + num_batches)) in
  let epoch_tn := concat (slice tn i (i + num_batches)) in
  mean_dim0 (score_tensor f epoch_tp epoch_fp epoch_fn epoch_tn).

(** The three stacked arrays [accs], [f1_scores], [ious]; [range] refuses a
    zero step and [np.vstack] an empty list. *)
Definition calculate_metrics `{Notebook} (st : train_state) (num_batches : nat)
  : result (list (list R) * list (list R) * list (list R)) :=
  if (num_batches =? 0)%nat then Raise ValueError
  else
    let starts := range_step 0 (length (tps st)) num_batches in
    match starts with
    | [] => Raise ValueError
    | _ =>
        let rows f :=
          map (fun i => epoch_metric f (tps st) (fps st) (fns st) (tns st)
                          i num_batches) starts in
        Ok (rows accuracy, rows f1_score, rows iou_score)
    end.

(** ** Evaluation (cells "complete the testing code" and "calculate metrics")

    The evaluation loop is given in the notebook as a commented template
    whose two open expressions are described in its comments: the features
    come from the transformer and the output from the network, both inside
    [with torch.no_grad()]. *)
Definition eval_batch `{Notebook} (size : Z) (st : train_state)
    (batch : list sample) : result train_state :=
  let image := map fst batch in
  let gt_masks := map snd batch in
  let feats := forward_dinov2 false st image in
  let out := Net (weights (model st)) (value feats) in
  out_upscaled <- mapM (fun o => interpolate_bilinear o size) out ;;
  let loss := loss_fn out_upscaled gt_masks in
  let '(tp, fp, fn, tn) :=
    get_stats (map argmax_classes out_upscaled) gt_masks num_classes in
  Ok {| dinov2 := dinov2 st; model := model st; optim := optim st;
        losses := losses st ++ [loss];
        tps := tps st ++ [tp]; fps := fps st ++ [fp];
        fns := fns st ++ [fn]; tns := tns st ++ [tn] |}.

(** [for image, gt_masks in test_loader], a loader that does not shuffle. *)
Definition eval_loop `{Torchvision} `{Notebook} (ds : TiffDataset)
    (batch_size : nat) (size : Z) (st : train_state) : result train_state :=
  foldM (fun st idxs =>
           batch <- mapM (getitem ds) idxs ;;
           eval_batch size st batch)
        (loader_batches (arange (len ds)) batch_size) st.

(** ** The base class of the network (cell "the base class for your model") *)

(** A parameter tensor as [count_parameters] sees it: its number of
    elements and its [requires_grad] flag. *)
Record parameter : Type := mkParameter {
  numel : Z;
  requires_grad : bool
}.

(** [BaseNet.count_parameters(trainable)] on the module's parameters: the
    sizes of the parameters whose [requires_grad] equals [trainable], and
    their sum. *)
Definition count_parameters (parameters : list parameter) (trainable : bool)
  : Z * list Z :=
  let params :=
    map numel
        (filter (fun param => Bool.eqb (requires_grad param) trainable)
                parameters) in
  (fold_right Z.add 0 params, params).

(** ** Metrics of the evaluation run (second cell "calculate metrics")

    [torch.concat] refuses an empty list of tensors. *)
Definition evaluation_metrics `{Notebook} (st : train_state)
  : result (list R * list R * list R) :=
  match tps st, fps st, fns st, tns st with
  | _ :: _, _ :: _, _ :: _, _ :: _ =>
      let tp := concat (tps st) in
      let fp := concat (fps st) in
      let fn := concat (fns st) in
      let tn := concat (tns st) in
      Ok (mean_dim0 (score_tensor accuracy tp fp fn tn),
          mean_dim0 (score_tensor f1_score tp fp fn tn),
          mean_dim0 (score_tensor iou_score tp fp fn tn))
  | _, _, _, _ => Raise RuntimeError
  end.

(** ** The loss *)

(** Negative log-likelihood of class [y] under the softmax of the logits. *)
Definition neg_log_likelihood (logits : list R) (y : Z) : R :=
  (ln (Rsum (map exp logits)) - nth (Z.to_nat y) logits 0)%R.

(** The (true class, negative log-likelihood) pairs of the pixels of one
    image. *)
Definition pixel_terms (input : tensor_chw R) (target : mask_hw)
  : list (Z * R) :=
  concat
    (map (fun i =>
            map (fun j =>
                   let y := nth (Z.to_nat j) (nth (Z.to_nat i) target []) 0 in
                   (y, neg_log_likelihood
                         (map (fun plane => pixel plane i j) input) y))
                (arange (width input)))
         (arange (height input))).

Definition class_weight (weight : list R) (y : Z) : R :=
  nth (Z.to_nat y) weight 0%R.

(** [CrossEntropyLoss(weight=weight)] with its default mean reduction: the
    sum over the pixels of the negative log-likelihood of the true class
    times the weight of that class, divided by the sum of those weights. *)
Definition cross_entropy (weight : list R) (input : list (tensor_chw R))
    (target : list mask_hw) : R :=
  let terms :=
    concat (map (fun p => pixel_terms (fst p) (snd p)) (combine input target)) in
  (Rsum (map (fun t => class_weight weight (fst t) * snd t) terms)
   / Rsum (map (fun t => class_weight weight (fst t)) terms))%R.

(** Modelled from the spec: [loss_fn] is a blank of the notebook (Task 1.2:
    "use CrossEntropyLoss with the weight param equals to the class
    weights", the weights being [train_dataset.get_class_weights()]), which
    the spec describes as a weighted cross-entropy loss with
    inverse-frequency class weighting. *)
Definition notebook_loss_fn (train_dataset : TiffDataset)
  : list (tensor_chw R) -> list mask_hw -> R :=
  let class_weights := get_class_weights (gt_masks train_dataset) in
  cross_entropy class_weights.

(** ** Specification vocabulary *)

(** Number of pixels of the mask stack that carry label [c]. *)
Definition pixel_count (masks : list mask_hw) (c : Z) : Z :=
  Z.of_nat (count_occ Z.eq_dec (ravel3 masks) c).

(** The label whose weight sits at position [i] of [get_class_weights]. *)
Definition label_at (masks : list mask_hw) (i : nat) : option Z :=
  nth_error (unique (ravel3 masks)) i.

(** Every label of the stack is one of the [num_classes] class labels. *)
Definition class_labels_only (masks : list mask_hw) : Prop :=
  forall v, In v (ravel3 masks) -> 0 <= v < num_classes.

(** A C x H x W tensor has [c] planes of [h] rows of [w] entries. *)
Definition has_shape {A : Type} (t : tensor_chw A) (c h w : nat) : Prop :=
  length t = c /\
  Forall (fun plane => length plane = h /\
                       Forall (fun row => length row = w) plane) t.

Definition mask_has_shape (m : mask_hw) (h w : nat) : Prop :=
  length m = h /\ Forall (fun row => length row = w) m.

(** Total count recorded for key [c] in a table of counts. *)
Fixpoint recorded (c : Z) (u : list (Z * Z)) : Z :=
  match u with
  | [] => 0
  | (y, n) :: t => (if y =? c then n else 0) + recorded c t
  end.

(** The min-max scaled stack, as real numbers. *)
Definition min_max_scaled (pixels : list Z) (lo hi : Z) : list R :=
  map (fun x => (IZR (x - lo) / IZR (hi - lo))%R) pixels.

(** The image a dataset yields, given the resized integer image: scaled by
    the value range, then normalised with [m] and [s]. *)
Definition normalized_with `{Torchvision} (m s : float) (rimg : tensor_chw Z)
  : tensor_chw float :=
  map (map (map (fun x =>
    fdiv (fsub (Num (IZR x / IZR image_max_value)) m) s))) rimg.


(** The resampling kernel returns a tensor of the size it is asked for. *)
Definition kernel_gives_requested_size `{Torchvision} : Prop :=
  forall u nh nw, 0 < nh -> 0 < nw ->
    has_shape (bilinear_kernel u nh nw) (length u)
              (Z.to_nat nh) (Z.to_nat nw).

(** The network's logits have at least one row and one column. *)
Definition net_output_nonempty `{Notebook} : Prop :=
  forall w f o, In o (Net w f) -> 0 < height o /\ 0 < width o.


(** Every entry of a tensor of floats is nan. *)
Definition all_nan (t : tensor_chw float) : Prop :=
  forall v, In v (ravel3 t) -> v = NaN.


(** ** Small concrete data *)

(** 8-bit images.  The kernel is a stand-in (nearest neighbour); where a
    statement below depends on the image values, the images already have
    the requested size, and [resize] returns them as they are. *)
Definition uint8_torchvision : Torchvision :=
  {| image_max_value := 255;
     bilinear_kernel := interpolate_nearest_exact |}.

(** A [side] x [side] grey image read with [to_rgb=True]. *)
Definition grey_square (side : nat) (v : Z) : image_hwc :=
  repeat (repeat [v; v; v] side) side.

Definition grey (v : Z) : image_hwc := grey_square 1 v.

Definition train_images_ex : list image_hwc :=
  [grey 0; grey 0; grey 0; grey 255].
Definition train_masks_ex : list mask_hw :=
  [[[0]]; [[1]]; [[0]]; [[2]]].

(** The dataset [__init__] builds from a stack whose extreme values are
    [lo] and [hi]. *)
Definition dataset_of (imgs : list image_hwc) (masks : list mask_hw)
    (size : Z) (is_train : bool) (lo hi : Z) : TiffDataset :=
  {| images := imgs;
     gt_masks := masks;
     input_size := size;
     train := is_train;
     img_h := Z.of_nat (length (hd [] imgs));
     img_w := Z.of_nat (length (hd [] (hd [] imgs)));
     mean := fmean (map (fun x => true_divide (x - lo) (hi - lo)) (ravel4 imgs));
     std := fstd (map (fun x => true_divide (x - lo) (hi - lo)) (ravel4 imgs)) |}.

Definition train_dataset_ex : TiffDataset :=
  dataset_of train_images_ex train_masks_ex 1 true 0 255.

(** Two 2 x 2 images to be resized to the transformer's input size. *)
Definition square_images_ex : list image_hwc :=
  [grey_square 2 10; grey_square 2 200].
Definition square_masks_ex : list mask_hw :=
  [[[0; 1]; [2; 3]]; [[4; 5]; [6; 0]]].
Definition square_dataset_ex : TiffDataset :=
  dataset_of square_images_ex square_masks_ex dino_input_size true 10 200.

(** One image of 1 x 2 pixels, to be resized likewise. *)
Definition wide_images_ex : list image_hwc := [[[[5; 5; 5]; [9; 9; 9]]]].
Definition wide_masks_ex : list mask_hw := [[[0; 1]]].
Definition wide_dataset_ex : TiffDataset :=
  dataset_of wide_images_ex wide_masks_ex dino_input_size true 5 9.

(** A notebook with its blanks filled in the simplest way: a "network" with
    one weight that returns one 1 x 1 logit per class and image, gradient
    descent with unit gradients on all parameters, the loss the notebook
    asks for, and statistics that are all zero. *)
Definition notebook_ex : Notebook :=
  {| dino_weights := Z;
     dino_grad := Z;
     features := nat;
     get_intermediate_layers := fun _ image => length image;
     dino_backward := fun _ _ _ _ => 1;
     net_weights := Z;
     net_grad := Z;
     Net := fun w n =>
       repeat (map (fun c => [[IZR (w + c)]]) (arange num_classes)) n;
     net_backward := fun _ _ _ _ => 1;
     optim_state := nat;
     optim_has_dino := true;
     optim_has_net := true;
     optim_update_dino := fun _ w g => w - g;
     optim_update_net := fun _ w g => w - g;
     optim_next := S;
     loss_fn := notebook_loss_fn train_dataset_ex;
     get_stats := fun pred _ n =>
       let zeros := map (fun _ => repeat 0 (Z.to_nat n)) pred in
       (zeros, zeros, zeros, zeros);
     accuracy := fun tp fp fn tn =>
       (IZR (tp + tn) / IZR (tp + fp + fn + tn))%R;
     f1_score := fun tp fp fn _ =>
       (IZR (2 * tp) / IZR (2 * tp + fp + fn))%R;
     iou_score := fun tp fp fn _ => (IZR tp / IZR (tp + fp + fn))%R;
     sampler := fun _ => [3; 1; 0; 2] |}.

Definition state_ex : @train_state notebook_ex :=
  @mkState notebook_ex (mkModule 5 None) (mkModule 0 None) 0%nat
           [] [] [] [] [].

(** * Lemmas *)

(** ** Sums and means of reals *)

Lemma Rsum_app (a b : list R) : Rsum (a ++ b) = (Rsum a + Rsum b)%R.
Proof.
  induction a as [|x a IH]; simpl.
  - lra.
  - unfold Rsum in *. simpl. rewrite IH. lra.
Qed.

Lemma Rsum_scaled (ws : list R) (s : R) :
  Rsum (map (fun w => (w / s)%R) ws) = (Rsum ws / s)%R.
Proof.
  induction ws as [|w ws IH].
  - unfold Rsum; simpl. unfold Rdiv. lra.
  - unfold Rsum in *. simpl. rewrite IH. unfold Rdiv. lra.
Qed.

Lemma Rsum_pos (ws : list R) :
  ws <> [] -> Forall (fun w => (0 < w)%R) ws -> (0 < Rsum ws)%R.
Proof.
  intros Hne Hall. induction Hall as [|w ws Hw Hall IH].
  - congruence.
  - unfold Rsum in *. simpl. destruct ws as [|w' ws'].
    + simpl. lra.
    + assert (0 < fold_right Rplus 0 (w' :: ws'))%R by (apply IH; discriminate).
      lra.
Qed.

Lemma Rsum_nonneg (ws : list R) :
  Forall (fun w => (0 <= w)%R) ws -> (0 <= Rsum ws)%R.
Proof.
  induction 1 as [|w ws Hw Hall IH]; unfold Rsum in *; simpl; lra.
Qed.

(** ** [np.unique] with counts *)

Lemma count_in_keys (x : Z) (u : list (Z * Z)) (y : Z) :
  In y (map fst (count_in x u)) <-> y = x \/ In y (map fst u).
Proof.
  induction u as [|[k n] t IH]; simpl.
  - intuition.
  - destruct (x <? k) eqn:Hlt; simpl.
    + intuition.
    + destruct (x =? k) eqn:Heq; simpl.
      * apply Z.eqb_eq in Heq. subst. intuition.
      * rewrite IH. intuition.
Qed.

Lemma count_in_sorted (x : Z) (u : list (Z * Z)) :
  StronglySorted Z.lt (map fst u) ->
  StronglySorted Z.lt (map fst (count_in x u)).
Proof.
  induction u as [|[k n] t IH]; simpl; intros Hs.
  - repeat constructor.
  - inversion Hs as [|? ? Ht Hall]; subst.
    destruct (x <? k) eqn:Hlt; simpl.
    + apply Z.ltb_lt in Hlt. constructor; [exact Hs|].
      constructor; [exact Hlt|].
      eapply Forall_impl; [|exact Hall]. simpl. intros; lia.
    + destruct (x =? k) eqn:Heq; simpl.
      * exact Hs.
      * apply Z.ltb_ge in Hlt. apply Z.eqb_neq in Heq.
        constructor; [apply IH; exact Ht|].
        apply Forall_forall. intros y Hy.
        apply count_in_keys in Hy. destruct Hy as [->|Hy].
        -- lia.
        -- rewrite Forall_forall in Hall. apply Hall. exact Hy.
Qed.

Lemma count_in_recorded (x : Z) (u : list (Z * Z)) (c : Z) :
  recorded c (count_in x u) = recorded c u + (if x =? c then 1 else 0).
Proof.
  induction u as [|[k n] t IH]; simpl.
  - lia.
  - destruct (x <? k) eqn:Hlt; simpl.
    + lia.
    + destruct (x =? k) eqn:Heq; simpl.
      * apply Z.eqb_eq in Heq. subst. destruct (k =? c); lia.
      * rewrite IH. lia.
Qed.

Lemma unique_sorted (a : list Z) : StronglySorted Z.lt (unique a).
Proof.
  unfold unique, unique_counts.
  induction a as [|x a IH]; simpl.
  - constructor.
  - apply count_in_sorted. exact IH.
Qed.

Lemma unique_In (a : list Z) (y : Z) : In y (unique a) <-> In y a.
Proof.
  unfold unique, unique_counts.
  induction a as [|x a IH]; simpl.
  - tauto.
  - rewrite count_in_keys, IH. intuition.
Qed.

Lemma unique_recorded (a : list Z) (c : Z) :
  recorded c (unique_counts a) = Z.of_nat (count_occ Z.eq_dec a c).
Proof.
  unfold unique_counts.
  induction a as [|x a IH]; simpl.
  - reflexivity.
  - rewrite count_in_recorded, IH.
    destruct (Z.eq_dec x c) as [->|Hne].
    + rewrite Z.eqb_refl. lia.
    + apply Z.eqb_neq in Hne. rewrite Hne. lia.
Qed.

Lemma sorted_NoDup (l : list Z) : StronglySorted Z.lt l -> NoDup l.
Proof.
  induction 1 as [|x l Hs IH Hall]; constructor; auto.
  intros Hin. rewrite Forall_forall in Hall. specialize (Hall x Hin). lia.
Qed.

Lemma recorded_absent (c : Z) (u : list (Z * Z)) :
  ~ In c (map fst u) -> recorded c u = 0.
Proof.
  induction u as [|[k n] t IH]; simpl; intros Hn.
  - reflexivity.
  - destruct (k =? c) eqn:Heq.
    + apply Z.eqb_eq in Heq. tauto.
    + rewrite IH; [lia | tauto].
Qed.

(** With distinct keys, the count stored next to a key is the total
    recorded for it. *)
Lemma counts_by_key (u : list (Z * Z)) :
  NoDup (map fst u) ->
  map snd u = map (fun k => recorded k u) (map fst u).
Proof.
  induction u as [|[k n] t IH]; simpl; intros Hnd.
  - reflexivity.
  - inversion Hnd as [|? ? Hni Hnd']; subst.
    rewrite Z.eqb_refl. rewrite (recorded_absent k t Hni). f_equal; [lia|].
    rewrite IH by exact Hnd'.
    rewrite !map_map. apply map_ext_in. intros [k' n'] Hin. simpl.
    destruct (k =? k') eqn:Heq; [|lia].
    apply Z.eqb_eq in Heq. subst. exfalso. apply Hni.
    apply in_map_iff. exists (k', n'). auto.
Qed.

Lemma unique_counts_counts (a : list Z) :
  map snd (unique_counts a)
  = map (fun k => Z.of_nat (count_occ Z.eq_dec a k)) (unique a).
Proof.
  rewrite counts_by_key.
  - apply map_ext. intros k. apply unique_recorded.
  - apply sorted_NoDup. apply unique_sorted.
Qed.

(** Two increasing lists with the same elements are the same list. *)
Lemma sorted_same_elements (l1 l2 : list Z) :
  StronglySorted Z.lt l1 -> StronglySorted Z.lt l2 ->
  (forall x, In x l1 <-> In x l2) -> l1 = l2.
Proof.
  intros H1. revert l2.
  induction H1 as [|x l1 Hs1 IH Hall1]; intros l2 H2 Heq.
  - destruct l2 as [|y l2]; [reflexivity|].
    exfalso. apply (proj2 (Heq y)). left. reflexivity.
  - destruct H2 as [|y l2 Hs2 Hall2].
    + exfalso. apply (proj1 (Heq x)). left. reflexivity.
    + rewrite Forall_forall in Hall1, Hall2.
      assert (x = y).
      { destruct (proj1 (Heq x) (or_introl eq_refl)) as [Hxy|Hxy]; [congruence|].
        destruct (proj2 (Heq y) (or_introl eq_refl)) as [Hyx|Hyx]; [congruence|].
        specialize (Hall1 _ Hyx). specialize (Hall2 _ Hxy). lia. }
      subst y. f_equal. apply IH; [exact Hs2|].
      intros z. split; intros Hz.
      * destruct (proj1 (Heq z) (or_intror Hz)) as [Hzx|Hzx]; [|exact Hzx].
        subst z. specialize (Hall1 _ Hz). lia.
      * destruct (proj2 (Heq z) (or_intror Hz)) as [Hzx|Hzx]; [|exact Hzx].
        subst z. specialize (Hall2 _ Hz). lia.
Qed.

Lemma arange_In (n x : Z) : In x (arange n) <-> 0 <= x < n.
Proof.
  unfold arange. rewrite in_map_iff. split.
  - intros [k [<- Hk]]. apply in_seq in Hk. lia.
  - intros Hx. exists (Z.to_nat x). split; [lia|]. apply in_seq. lia.
Qed.

Lemma arange_sorted (n : Z) : StronglySorted Z.lt (arange n).
Proof.
  unfold arange. generalize 0%nat.
  induction (Z.to_nat n) as [|k IH]; intros s; simpl.
  - constructor.
  - constructor; [apply IH|].
    apply Forall_forall. intros y Hy. apply in_map_iff in Hy.
    destruct Hy as [j [<- Hj]]. apply in_seq in Hj. lia.
Qed.

Lemma unique_all_classes (a : list Z) (n : Z) :
  (forall v, In v a -> 0 <= v < n) ->
  (forall c, 0 <= c < n -> In c a) ->
  unique a = arange n.
Proof.
  intros Honly Hall. apply sorted_same_elements.
  - apply unique_sorted.
  - apply arange_sorted.
  - intros x. rewrite unique_In, arange_In. split; auto.
Qed.

(** ** Class weights *)

Lemma get_class_weights_unfold (masks : list mask_hw) :
  get_class_weights masks
  = map (fun k => (1 / IZR (pixel_count masks k)
                   / Rsum (map (fun k' => (1 / IZR (pixel_count masks k'))%R)
                               (unique (ravel3 masks))))%R)
        (unique (ravel3 masks)).
Proof.
  unfold get_class_weights. rewrite unique_counts_counts.
  rewrite !map_map. reflexivity.
Qed.

Lemma pixel_count_pos (masks : list mask_hw) (k : Z) :
  In k (ravel3 masks) -> 1 <= pixel_count masks k.
Proof.
  intros Hin. unfold pixel_count.
  apply (count_occ_In Z.eq_dec) in Hin. lia.
Qed.

Lemma inverse_counts_pos (masks : list mask_hw) :
  Forall (fun w => (0 < w)%R)
         (map (fun k => (1 / IZR (pixel_count masks k))%R) (unique (ravel3 masks))).
Proof.
  apply Forall_forall. intros w Hw. apply in_map_iff in Hw.
  destruct Hw as [k [<- Hk]]. apply (proj1 (unique_In _ _)) in Hk.
  apply pixel_count_pos in Hk.
  assert (0 < IZR (pixel_count masks k))%R by (apply IZR_lt; lia).
  unfold Rdiv. rewrite Rmult_1_l. apply Rinv_0_lt_compat. assumption.
Qed.

Lemma inverse_count_sum_pos (masks : list mask_hw) :
  ravel3 masks <> [] ->
  (0 < 1 / Rsum (map (fun k => (1 / IZR (pixel_count masks k))%R)
                     (unique (ravel3 masks))))%R.
Proof.
  intros Hne. unfold Rdiv. rewrite Rmult_1_l. apply Rinv_0_lt_compat.
  apply Rsum_pos; [|apply inverse_counts_pos].
  destruct (ravel3 masks) as [|v a] eqn:Ha; [congruence|].
  assert (Hin : In v (unique (v :: a)))
    by (apply (proj2 (unique_In _ _)); left; reflexivity).
  destruct (unique (v :: a)); [inversion Hin | discriminate].
Qed.

Lemma get_class_weights_length (masks : list mask_hw) :
  length (get_class_weights masks) = length (unique (ravel3 masks)).
Proof. rewrite get_class_weights_unfold. apply length_map. Qed.

Lemma get_class_weights_sum (masks : list mask_hw) :
  ravel3 masks <> [] -> Rsum (get_class_weights masks) = 1%R.
Proof.
  intros Hne. rewrite get_class_weights_unfold.
  set (inv := map (fun k => (1 / IZR (pixel_count masks k))%R) (unique (ravel3 masks))).
  assert (Hpos : (0 < Rsum inv)%R).
  { apply Rsum_pos; [|apply inverse_counts_pos].
    unfold inv. destruct (ravel3 masks) as [|v a] eqn:Ha; [congruence|].
    assert (Hin : In v (unique (v :: a))) by (apply (proj2 (unique_In _ _)); left; reflexivity).
    destruct (unique (v :: a)); [inversion Hin | discriminate]. }
  replace (map _ (unique (ravel3 masks)))
    with (map (fun w => (w / Rsum inv)%R) inv).
  - rewrite Rsum_scaled. field. lra.
  - unfold inv. rewrite map_map. reflexivity.
Qed.

Lemma get_class_weights_nth (masks : list mask_hw) (i : nat) (l : Z) :
  label_at masks i = Some l ->
  nth i (get_class_weights masks) 0%R
  = (1 / Rsum (map (fun k => (1 / IZR (pixel_count masks k))%R)
                   (unique (ravel3 masks)))
     * (1 / IZR (pixel_count masks l)))%R.
Proof.
  unfold label_at. intros Hl. rewrite get_class_weights_unfold.
  set (f := fun k => _).
  assert (Hlen : (i < length (unique (ravel3 masks)))%nat).
  { apply nth_error_Some. congruence. }
  rewrite (nth_indep _ 0%R (f 0)) by (rewrite length_map; exact Hlen).
  rewrite map_nth. apply nth_error_nth with (d := 0) in Hl. rewrite Hl.
  unfold f. unfold Rdiv. ring.
Qed.

(** ** Absent classes *)

Lemma sorted_nth_lower (l : list Z) :
  StronglySorted Z.lt l ->
  forall lo i v, (forall x, In x l -> lo <= x) ->
    nth_error l i = Some v -> lo + Z.of_nat i <= v.
Proof.
  induction 1 as [|x l Hs IH Hall]; intros lo i v Hlo Hn.
  - destruct i; discriminate.
  - destruct i as [|i]; simpl in Hn.
    + injection Hn as <-. specialize (Hlo x (or_introl eq_refl)). lia.
    + rewrite Forall_forall in Hall.
      assert (x + 1 + Z.of_nat i <= v).
      { apply IH; [|exact Hn]. intros y Hy. specialize (Hall y Hy). lia. }
      specialize (Hlo x (or_introl eq_refl)). lia.
Qed.

Lemma sorted_nth_tight (l : list Z) :
  StronglySorted Z.lt l ->
  forall lo i, (forall x, In x l -> lo <= x) ->
    nth_error l i = Some (lo + Z.of_nat i) ->
    forall j, (j <= i)%nat -> nth_error l j = Some (lo + Z.of_nat j).
Proof.
  induction 1 as [|x l Hs IH Hall]; intros lo i Hlo Hn j Hj.
  - destruct i; discriminate.
  - rewrite Forall_forall in Hall.
    assert (Hx : x = lo).
    { destruct i as [|i]; simpl in Hn.
      - injection Hn as ->. lia.
      - assert (x + 1 + Z.of_nat i <= lo + Z.of_nat (S i)).
        { eapply sorted_nth_lower; [exact Hs| |exact Hn].
          intros y Hy. specialize (Hall y Hy). lia. }
        specialize (Hlo x (or_introl eq_refl)). lia. }
    subst x. destruct j as [|j].
    + simpl. f_equal. lia.
    + destruct i as [|i]; [lia|].
      replace (lo + Z.of_nat (S j)) with (lo + 1 + Z.of_nat j) by lia.
      change (nth_error (lo :: l) (S j)) with (nth_error l j).
      change (nth_error (lo :: l) (S i)) with (nth_error l i) in Hn.
      apply (IH (lo + 1) i).
      * intros y Hy. specialize (Hall y Hy). lia.
      * rewrite Hn. f_equal. lia.
      * lia.
Qed.

Lemma unique_length_nodup (a : list Z) :
  length (unique a) = length (nodup Z.eq_dec a).
Proof.
  apply Permutation_length. apply NoDup_Permutation.
  - apply sorted_NoDup, unique_sorted.
  - apply NoDup_nodup.
  - intros x. rewrite unique_In, nodup_In. tauto.
Qed.

(** ** Minimum and maximum of an array *)

Lemma fold_min_spec (t : list Z) (x : Z) :
  In (fold_left Z.min t x) (x :: t) /\
  forall y, In y (x :: t) -> fold_left Z.min t x <= y.
Proof.
  revert x. induction t as [|a t IH]; intros x; simpl.
  - split; [left; reflexivity|]. intros y [<-|[]]. lia.
  - destruct (IH (Z.min x a)) as [Hin Hle]. split.
    + destruct Hin as [Hin|Hin].
      * rewrite <- Hin. destruct (Z.min_spec x a) as [[_ ->]|[_ ->]]; auto.
      * auto.
    + intros y Hy.
      assert (Hm : fold_left Z.min t (Z.min x a) <= Z.min x a)
        by (apply Hle; left; reflexivity).
      destruct Hy as [<-|[<-|Hy]]; [lia|lia|].
      apply Hle. right. exact Hy.
Qed.

Lemma fold_max_spec (t : list Z) (x : Z) :
  In (fold_left Z.max t x) (x :: t) /\
  forall y, In y (x :: t) -> y <= fold_left Z.max t x.
Proof.
  revert x. induction t as [|a t IH]; intros x; simpl.
  - split; [left; reflexivity|]. intros y [<-|[]]. lia.
  - destruct (IH (Z.max x a)) as [Hin Hle]. split.
    + destruct Hin as [Hin|Hin].
      * rewrite <- Hin. destruct (Z.max_spec x a) as [[_ ->]|[_ ->]]; auto.
      * auto.
    + intros y Hy.
      assert (Hm : Z.max x a <= fold_left Z.max t (Z.max x a))
        by (apply Hle; left; reflexivity).
      destruct Hy as [<-|[<-|Hy]]; [lia|lia|].
      apply Hle. right. exact Hy.
Qed.

Lemma amin_spec (a : list Z) :
  a <> [] ->
  exists m, amin a = Ok m /\ In m a /\ forall y, In y a -> m <= y.
Proof.
  destruct a as [|x t]; [congruence|]. intros _.
  exists (fold_left Z.min t x). split; [reflexivity|]. apply fold_min_spec.
Qed.

Lemma amax_spec (a : list Z) :
  a <> [] ->
  exists m, amax a = Ok m /\ In m a /\ forall y, In y a -> y <= m.
Proof.
  destruct a as [|x t]; [congruence|]. intros _.
  exists (fold_left Z.max t x). split; [reflexivity|]. apply fold_max_spec.
Qed.

(** ** Mean and standard deviation *)

Lemma all_num_map_Num (f : Z -> R) (a : list Z) :
  all_num (map (fun x => Num (f x)) a) = Some (map f a).
Proof.
  induction a as [|x a IH]; simpl; [reflexivity|]. rewrite IH. reflexivity.
Qed.

Lemma Rmean_bounds (l : list R) (lo hi : R) :
  l <> [] -> Forall (fun x => (lo <= x <= hi)%R) l -> (lo <= Rmean l <= hi)%R.
Proof.
  intros Hne Hall. unfold Rmean.
  assert (Hn : (0 < INR (length l))%R).
  { apply lt_0_INR. destruct l; [congruence|simpl; lia]. }
  assert (Hs : (lo * INR (length l) <= Rsum l <= hi * INR (length l))%R).
  { clear Hne Hn. induction Hall as [|x l Hx Hall IH].
    - unfold Rsum; simpl. lra.
    - change (Rsum (x :: l)) with (x + Rsum l)%R.
      change (length (x :: l)) with (S (length l)). rewrite S_INR. lra. }
  split.
  - apply Rmult_le_reg_r with (INR (length l)); [exact Hn|].
    unfold Rdiv. rewrite Rmult_assoc, Rinv_l by lra. lra.
  - apply Rmult_le_reg_r with (INR (length l)); [exact Hn|].
    unfold Rdiv. rewrite Rmult_assoc, Rinv_l by lra. lra.
Qed.

Lemma Rsum_pos_member (l : list R) (x : R) :
  Forall (fun y => (0 <= y)%R) l -> In x l -> (0 < x)%R -> (0 < Rsum l)%R.
Proof.
  intros Hall. induction Hall as [|y l Hy Hall IH]; intros Hin Hx.
  - inversion Hin.
  - change (Rsum (y :: l)) with (y + Rsum l)%R.
    pose proof (Rsum_nonneg l Hall) as Hnn. cbv beta in Hy.
    destruct Hin as [Heq|Hin].
    + subst y. lra.
    + specialize (IH Hin Hx). lra.
Qed.

(** The deviation is positive as soon as two entries differ. *)
Lemma Rstd_pos (l : list R) (x y : R) :
  In x l -> In y l -> x <> y -> (0 < Rstd l)%R.
Proof.
  intros Hx Hy Hxy. unfold Rstd. apply sqrt_lt_R0.
  set (m := Rmean l).
  set (sq := map (fun z => ((z - m) * (z - m))%R) l).
  assert (Hnn : Forall (fun z => (0 <= z)%R) sq).
  { apply Forall_forall. intros z Hz. apply in_map_iff in Hz.
    destruct Hz as [u [<- _]]. apply (Rle_0_sqr (u - m)). }
  assert (Hn : (0 < INR (length sq))%R).
  { apply lt_0_INR. unfold sq. rewrite length_map.
    destruct l; [inversion Hx|simpl; lia]. }
  assert (Hs : (0 < Rsum sq)%R).
  { destruct (Req_dec_T x m) as [Hxm|Hxm].
    - apply Rsum_pos_member with ((y - m) * (y - m))%R; [exact Hnn| |].
      + apply in_map_iff. exists y. auto.
      + apply (Rsqr_pos_lt (y - m)). lra.
    - apply Rsum_pos_member with ((x - m) * (x - m))%R; [exact Hnn| |].
      + apply in_map_iff. exists x. auto.
      + apply (Rsqr_pos_lt (x - m)). lra. }
  unfold Rmean. apply Rdiv_lt_0_compat; assumption.
Qed.

(** ** [get_mean_std] *)


Lemma get_mean_std_empty (imgs : list image_hwc) :
  ravel4 imgs = [] -> get_mean_std imgs = Raise ValueError.
Proof. intros He. unfold get_mean_std. rewrite He. reflexivity. Qed.

Lemma get_mean_std_constant (imgs : list image_hwc) (lo : Z) :
  ravel4 imgs <> [] -> amin (ravel4 imgs) = Ok lo -> amax (ravel4 imgs) = Ok lo ->
  get_mean_std imgs = Ok (NaN, NaN).
Proof.
  intros Hne Hmin Hmax. unfold get_mean_std. rewrite Hmin, Hmax. simpl.
  rewrite Z.sub_diag.
  destruct (ravel4 imgs) as [|x t]; [congruence|].
  unfold fmean, fstd, true_divide. simpl. reflexivity.
Qed.

Lemma get_mean_std_scaled (imgs : list image_hwc) (lo hi : Z) :
  ravel4 imgs <> [] -> amin (ravel4 imgs) = Ok lo -> amax (ravel4 imgs) = Ok hi ->
  hi - lo <> 0 ->
  get_mean_std imgs
  = Ok (Num (Rmean (min_max_scaled (ravel4 imgs) lo hi)),
        Num (Rstd (min_max_scaled (ravel4 imgs) lo hi))).
Proof.
  intros Hne Hmin Hmax Hd. unfold get_mean_std. rewrite Hmin, Hmax. simpl.
  unfold fmean, fstd, true_divide.
  apply Z.eqb_neq in Hd. rewrite Hd.
  rewrite (all_num_map_Num (fun x => (IZR (x - lo) / IZR (hi - lo))%R)).
  fold (min_max_scaled (ravel4 imgs) lo hi).
  unfold min_max_scaled.
  destruct (ravel4 imgs) as [|x t]; [congruence|]. reflexivity.
Qed.

(** ** The result monad *)

Lemma bind_Ok {A B : Type} (m : result A) (k : A -> result B) (b : B) :
  bind m k = Ok b -> exists a, m = Ok a /\ k a = Ok b.
Proof. destruct m as [a|e]; simpl; intros Hb; [eauto | discriminate]. Qed.

Lemma np_index_In {A : Type} (a : list A) (index : Z) (x : A) :
  np_index a index = Ok x -> In x a.
Proof.
  unfold np_index.
  destruct ((0 <=? _) && _); [|discriminate].
  destruct (nth_error a _) as [y|] eqn:Hn; [|discriminate].
  intros Hx. injection Hx as <-. eapply nth_error_In. exact Hn.
Qed.

Lemma np_index_in_range {A : Type} (a : list A) (index : Z) :
  0 <= index < Z.of_nat (length a) -> exists x, np_index a index = Ok x.
Proof.
  intros Hi. unfold np_index.
  destruct (index <? 0) eqn:Hneg; [apply Z.ltb_lt in Hneg; lia|].
  replace (0 <=? index) with true by (symmetry; apply Z.leb_le; lia).
  replace (index <? Z.of_nat (length a)) with true
    by (symmetry; apply Z.ltb_lt; lia).
  simpl. destruct (nth_error a (Z.to_nat index)) as [x|] eqn:Hn.
  - eauto.
  - apply nth_error_None in Hn. lia.
Qed.

(** ** Array shapes and contents *)

Lemma arange_length (n : Z) : length (arange n) = Z.to_nat n.
Proof. unfold arange. rewrite length_map, length_seq. reflexivity. Qed.

Lemma map_id_eq {A : Type} (l : list A) : map (fun v => v) l = l.
Proof. induction l as [|x l IH]; simpl; [reflexivity|]. rewrite IH. reflexivity. Qed.

Lemma to_dtype_long_id (t : tensor_chw Z) : to_dtype_long t = t.
Proof.
  unfold to_dtype_long.
  rewrite <- (map_id_eq t) at 2. apply map_ext. intros plane.
  rewrite <- (map_id_eq plane) at 2. apply map_ext. intros row.
  apply map_id_eq.
Qed.

Lemma in_ravel3 {A : Type} (t : list (list (list A))) (v : A) :
  In v (ravel3 t) <-> exists plane row, In plane t /\ In row plane /\ In v row.
Proof.
  unfold ravel3. rewrite in_concat. split.
  - intros [row [Hrow Hv]]. apply in_concat in Hrow.
    destruct Hrow as [plane [Hp Hr]]. eauto.
  - intros [plane [row [Hp [Hr Hv]]]]. exists row. split; [|exact Hv].
    apply in_concat. eauto.
Qed.

Lemma in_ravel2 {A : Type} (m : list (list A)) (v : A) :
  In v (ravel2 m) <-> exists row, In row m /\ In v row.
Proof. unfold ravel2. apply in_concat. Qed.

(** A mask with a non-empty first row becomes a one-channel tensor. *)
Lemma to_image_mask (m : mask_hw) :
  hd [] m <> [] -> to_image (expand_dims m) = [m].
Proof.
  intros Hne. unfold to_image, expand_dims.
  destruct m as [|r rest]; [simpl in Hne; congruence|].
  destruct r as [|v r]; [simpl in Hne; congruence|].
  change (length (hd [] (hd [] (map (map (fun v0 => [v0])) ((v :: r) :: rest)))))
    with 1%nat.
  change (seq 0 1) with [0%nat].
  set (m := (v :: r) :: rest).
  change (map (fun k => map (map (fun px => nth k px 0))
                            (map (map (fun v0 => [v0])) m)) [0%nat])
    with [map (map (fun px => nth 0 px 0)) (map (map (fun v0 => [v0])) m)].
  assert (Hm : map (map (fun px => nth 0 px 0)) (map (map (fun v0 => [v0])) m) = m).
  { rewrite map_map. rewrite <- (map_id_eq m) at 2.
    apply map_ext. intros row. rewrite map_map. apply map_id_eq. }
  rewrite Hm. reflexivity.
Qed.

Lemma to_image_mask_values (m : mask_hw) (v : Z) :
  In v (ravel3 (to_image (expand_dims m))) -> In v (ravel2 m).
Proof.
  destruct (list_eq_dec Z.eq_dec (hd [] m) []) as [He|Hne].
  - unfold to_image, expand_dims. destruct m as [|r rest]; simpl.
    + intros [].
    + simpl in He. subst r. simpl. intros [].
  - rewrite (to_image_mask m Hne). unfold ravel3, ravel2. simpl.
    rewrite app_nil_r. tauto.
Qed.

(** ** Nearest-exact resampling copies entries *)


(** Whatever the shape, an entry of the result is an entry of the input or
    the filler of an out-of-range read. *)
Lemma interpolate_nearest_exact_values (t : tensor_chw Z) (new_h new_w v : Z) :
  In v (ravel3 (interpolate_nearest_exact t new_h new_w)) ->
  In v (ravel3 t) \/ v = 0.
Proof.
  rewrite in_ravel3. intros [plane' [row' [Hp [Hr Hv]]]].
  unfold interpolate_nearest_exact in Hp. apply in_map_iff in Hp.
  destruct Hp as [plane [<- Hplane]].
  apply in_map_iff in Hr. destruct Hr as [i [<- _]].
  apply in_map_iff in Hv. destruct Hv as [j [<- _]].
  set (row := nth _ plane []).
  destruct (nth_in_or_default (Z.to_nat (nearest_exact_idx j (width t) new_w)) row 0)
    as [Hin|Hdef]; [|right; exact Hdef].
  destruct (nth_in_or_default (Z.to_nat (nearest_exact_idx i (height t) new_h)) plane [])
    as [Hrow|Hrow].
  - left. apply in_ravel3. exists plane, row. auto.
  - fold row in Hrow. rewrite Hrow in Hin. inversion Hin.
Qed.


Lemma interpolate_nearest_exact_shape (t : tensor_chw Z) (new_h new_w : Z) :
  has_shape (interpolate_nearest_exact t new_h new_w)
            (length t) (Z.to_nat new_h) (Z.to_nat new_w).
Proof.
  unfold has_shape, interpolate_nearest_exact. split; [apply length_map|].
  apply Forall_forall. intros plane Hp. apply in_map_iff in Hp.
  destruct Hp as [p [<- _]]. split.
  - rewrite length_map. apply arange_length.
  - apply Forall_forall. intros row Hr. apply in_map_iff in Hr.
    destruct Hr as [i [<- _]]. rewrite length_map. apply arange_length.
Qed.

(** ** [resize] *)

Lemma compute_resized_output_size_square (side size : Z) :
  0 < side -> compute_resized_output_size side side size = Ok (size, size).
Proof.
  intros Hs. unfold compute_resized_output_size.
  rewrite Z.leb_refl.
  destruct (side =? 0) eqn:He; [apply Z.eqb_eq in He; lia|].
  rewrite Z.quot_mul by lia. reflexivity.
Qed.

Lemma compute_resized_output_size_pos (h w size nh nw : Z) :
  0 < h -> 0 < w -> 0 < size ->
  compute_resized_output_size h w size = Ok (nh, nw) -> 0 < nh /\ 0 < nw.
Proof.
  intros Hh Hw Hs. unfold compute_resized_output_size.
  destruct (w <=? h) eqn:Hwh.
  - apply Z.leb_le in Hwh.
    destruct (w =? 0) eqn:He; [apply Z.eqb_eq in He; lia|].
    intros Heq. injection Heq as <- <-. split; [|lia].
    apply Z.quot_str_pos. nia.
  - apply Z.leb_gt in Hwh.
    destruct (h =? 0) eqn:He; [apply Z.eqb_eq in He; lia|].
    intros Heq. injection Heq as <- <-. split; [lia|].
    apply Z.quot_str_pos. nia.
Qed.

Lemma compute_resized_output_size_returns (h w size : Z) :
  0 < h -> 0 < w ->
  exists nh nw, compute_resized_output_size h w size = Ok (nh, nw).
Proof.
  intros Hh Hw. unfold compute_resized_output_size.
  destruct (w <=? h).
  - destruct (w =? 0) eqn:He; [apply Z.eqb_eq in He; lia|]. eauto.
  - destruct (h =? 0) eqn:He; [apply Z.eqb_eq in He; lia|]. eauto.
Qed.

(** What [resize] can return. *)
Lemma resize_Ok `{Torchvision} (t t' : tensor_chw Z) (size : Z)
    (mode : InterpolationMode) :
  resize t size mode = Ok t' ->
  exists nh nw,
    compute_resized_output_size (height t) (width t) size = Ok (nh, nw) /\
    ((nh = height t /\ nw = width t /\ t' = t) \/
     (0 < nh /\ 0 < nw /\
      t' = match mode with
           | BILINEAR => bilinear_kernel t nh nw
           | NEAREST_EXACT => interpolate_nearest_exact t nh nw
           end)).
Proof.
  unfold resize. intros Hr. apply bind_Ok in Hr.
  destruct Hr as [[nh nw] [Hsz Hr]]. exists nh, nw. split; [exact Hsz|].
  destruct ((nh =? height t) && (nw =? width t)) eqn:Hsame.
  - apply andb_true_iff in Hsame. destruct Hsame as [H1 H2].
    apply Z.eqb_eq in H1, H2. injection Hr as <-. left. auto.
  - destruct ((nh <=? 0) || (nw <=? 0)) eqn:Hneg; [discriminate|].
    apply orb_false_iff in Hneg. destruct Hneg as [H1 H2].
    apply Z.leb_gt in H1, H2. right.
    destruct mode; injection Hr as <-; auto.
Qed.

Lemma resize_returns `{Torchvision} (t : tensor_chw Z) (size : Z)
    (mode : InterpolationMode) :
  0 < height t -> 0 < width t -> 0 < size ->
  exists t', resize t size mode = Ok t'.
Proof.
  intros Hh Hw Hs. unfold resize.
  destruct (compute_resized_output_size_returns (height t) (width t) size Hh Hw)
    as [nh [nw Hsz]].
  rewrite Hsz. simpl.
  destruct (compute_resized_output_size_pos _ _ _ _ _ Hh Hw Hs Hsz) as [Hnh Hnw].
  destruct ((nh =? height t) && (nw =? width t)); [eauto|].
  replace (nh <=? 0) with false by (symmetry; apply Z.leb_gt; lia).
  replace (nw <=? 0) with false by (symmetry; apply Z.leb_gt; lia).
  simpl. destruct mode; eauto.
Qed.

(** The image is resized to the very size of the already resized tensor. *)
Lemma resize_same_size `{Torchvision} (t : tensor_chw Z) (size : Z)
    (mode : InterpolationMode) :
  compute_resized_output_size (height t) (width t) size
  = Ok (height t, width t) ->
  resize t size mode = Ok t.
Proof.
  intros Hsz. unfold resize. rewrite Hsz. simpl.
  rewrite !Z.eqb_refl. reflexivity.
Qed.

Lemma bind_Raise {A B : Type} (m : result A) (k : A -> result B) (e : exn) :
  bind m k = Raise e -> m = Raise e \/ exists a, m = Ok a /\ k a = Raise e.
Proof.
  destruct m as [a|e']; simpl; intros Hb; [right; eauto | left; congruence].
Qed.

Lemma np_index_Raise {A : Type} (a : list A) (index : Z) (e : exn) :
  np_index a index = Raise e -> e = IndexError.
Proof.
  unfold np_index. destruct ((0 <=? _) && _).
  - destruct (nth_error a _); [discriminate|]. congruence.
  - congruence.
Qed.

Lemma resize_Raise `{Torchvision} (t : tensor_chw Z) (size : Z)
    (mode : InterpolationMode) (e : exn) :
  resize t size mode = Raise e -> e = ZeroDivisionError \/ e = RuntimeError.
Proof.
  unfold resize, compute_resized_output_size.
  destruct (width t <=? height t).
  - destruct (width t =? 0); simpl; [left; congruence|].
    destruct (_ && _); [discriminate|].
    destruct (_ || _); [right; congruence|]. destruct mode; discriminate.
  - destruct (height t =? 0); simpl; [left; congruence|].
    destruct (_ && _); [discriminate|].
    destruct (_ || _); [right; congruence|]. destruct mode; discriminate.
Qed.

(** ** Shapes *)

Lemma has_shape_height {A : Type} (t : tensor_chw A) (c h w : nat) :
  has_shape t c h w -> (0 < c)%nat -> height t = Z.of_nat h.
Proof.
  intros [Hc Hall] Hc0. unfold height.
  destruct t as [|p t']; [simpl in Hc; lia|]. simpl.
  rewrite Forall_forall in Hall.
  destruct (Hall p (or_introl eq_refl)) as [Hp _]. rewrite Hp. reflexivity.
Qed.

Lemma has_shape_width {A : Type} (t : tensor_chw A) (c h w : nat) :
  has_shape t c h w -> (0 < c)%nat -> (0 < h)%nat -> width t = Z.of_nat w.
Proof.
  intros [Hc Hall] Hc0 Hh0. unfold width.
  destruct t as [|p t']; [simpl in Hc; lia|]. simpl.
  rewrite Forall_forall in Hall.
  destruct (Hall p (or_introl eq_refl)) as [Hp Hrows].
  destruct p as [|r p']; [simpl in Hp; lia|]. simpl.
  rewrite Forall_forall in Hrows. rewrite (Hrows r (or_introl eq_refl)).
  reflexivity.
Qed.

Lemma has_shape_map {A B : Type} (f : A -> B) (t : tensor_chw A) (c h w : nat) :
  has_shape t c h w -> has_shape (map (map (map f)) t) c h w.
Proof.
  intros [Hc Hall]. split; [rewrite length_map; exact Hc|].
  apply Forall_forall. intros plane Hp. apply in_map_iff in Hp.
  destruct Hp as [p [<- Hp]]. rewrite Forall_forall in Hall.
  destruct (Hall p Hp) as [Hlen Hrows]. split; [rewrite length_map; exact Hlen|].
  apply Forall_forall. intros row Hr. apply in_map_iff in Hr.
  destruct Hr as [r [<- Hr]]. rewrite Forall_forall in Hrows.
  rewrite length_map. apply Hrows. exact Hr.
Qed.

(** A rectangular H x W x C array becomes a C x H x W tensor. *)
Lemma to_image_shape (a : image_hwc) (h w c : nat) :
  has_shape a h w c -> (0 < h)%nat -> (0 < w)%nat ->
  has_shape (to_image a) c h w.
Proof.
  intros [Hh Hall] Hh0 Hw0. unfold to_image.
  assert (Hc : length (hd [] (hd [] a)) = c).
  { destruct a as [|r a']; [simpl in Hh; lia|]. simpl.
    rewrite Forall_forall in Hall.
    destruct (Hall r (or_introl eq_refl)) as [Hr Hpx].
    destruct r as [|px r']; [simpl in Hr; lia|]. simpl.
    rewrite Forall_forall in Hpx. apply Hpx. left. reflexivity. }
  rewrite Hc. split; [rewrite length_map, length_seq; reflexivity|].
  apply Forall_forall. intros plane Hp. apply in_map_iff in Hp.
  destruct Hp as [k [<- _]]. split; [rewrite length_map; exact Hh|].
  apply Forall_forall. intros row Hr. apply in_map_iff in Hr.
  destruct Hr as [r [<- Hr]]. rewrite length_map.
  rewrite Forall_forall in Hall. destruct (Hall r Hr) as [Hlen _]. exact Hlen.
Qed.

Lemma mask_tensor_shape (m : mask_hw) (h w : nat) :
  mask_has_shape m h w -> has_shape [m] 1 h w.
Proof. intros [Hh Hw]. split; [reflexivity|]. constructor; auto. Qed.

Lemma mask_first_row (m : mask_hw) (h w : nat) :
  mask_has_shape m h w -> (0 < h)%nat -> (0 < w)%nat -> hd [] m <> [].
Proof.
  intros [Hh Hw] Hh0 Hw0. destruct m as [|r m']; [simpl in Hh; lia|]. simpl.
  rewrite Forall_forall in Hw. specialize (Hw r (or_introl eq_refl)).
  destruct r; [simpl in Hw; lia | discriminate].
Qed.

(** ** [apply_transform] *)

Lemma apply_transform_Ok `{Torchvision} (self : TiffDataset)
    (image : image_hwc) (mask : mask_hw) (img : tensor_chw float) (msk : mask_hw) :
  apply_transform self image mask = Ok (img, msk) ->
  exists rimg rmsk,
    resize (to_image image) (input_size self) BILINEAR = Ok rimg /\
    resize (to_image (expand_dims mask)) (input_size self) NEAREST_EXACT = Ok rmsk /\
    float_is_zero (std self) = false /\
    img = map (map (map (fun x =>
            fdiv (fsub (Num (IZR x / IZR image_max_value)) (mean self)) (std self))))
            rimg /\
    msk = squeeze0 rmsk.
Proof.
  unfold apply_transform. intros Ha.
  apply bind_Ok in Ha. destruct Ha as [rimg [Hri Ha]].
  apply bind_Ok in Ha. destruct Ha as [rmsk [Hrm Ha]].
  apply bind_Ok in Ha. destruct Ha as [nimg [Hn Ha]].
  exists rimg, rmsk. split; [exact Hri|]. split; [exact Hrm|].
  unfold normalize in Hn.
  destruct (float_is_zero (std self)) eqn:Hz; [discriminate|].
  injection Hn as <-. rewrite to_dtype_long_id in Ha.
  destruct (forallb _ _); [|discriminate].
  injection Ha as <- <-. split; [reflexivity|]. split; [|reflexivity].
  unfold to_dtype_float. rewrite map_map.
  apply map_ext. intros plane. rewrite map_map.
  apply map_ext. intros row. rewrite map_map. reflexivity.
Qed.

Lemma resized_mask_values `{Torchvision} (m : mask_hw) (size : Z)
    (rmsk : tensor_chw Z) (v : Z) :
  resize (to_image (expand_dims m)) size NEAREST_EXACT = Ok rmsk ->
  In v (ravel3 rmsk) -> In v (ravel2 m) \/ v = 0.
Proof.
  intros Hr Hv. apply resize_Ok in Hr.
  destruct Hr as [nh [nw [_ [[_ [_ ->]]|[_ [_ ->]]]]]].
  - left. apply to_image_mask_values. exact Hv.
  - apply interpolate_nearest_exact_values in Hv.
    destruct Hv as [Hv|Hv]; [left|right; exact Hv].
    apply to_image_mask_values. exact Hv.
Qed.


Lemma assertion_holds (values : list Z) :
  (forall v, In v values -> 0 <= v < 7) ->
  forallb (fun v => isin v (arange 7)) (unique values) = true.
Proof.
  intros Hv. apply forallb_forall. intros v Hin.
  apply (proj1 (unique_In _ _)) in Hin. specialize (Hv v Hin).
  unfold isin. apply existsb_exists. exists v. split; [|apply Z.eqb_refl].
  apply (proj2 (arange_In _ _)). exact Hv.
Qed.

Lemma stack_mask_labels (masks : list mask_hw) (m : mask_hw) (v : Z) :
  class_labels_only masks -> In m masks -> In v (ravel2 m) -> 0 <= v < 7.
Proof.
  intros Honly Hm Hv. apply Honly. apply in_ravel3.
  apply in_ravel2 in Hv. destruct Hv as [row [Hrow Hv]]. eauto.
Qed.

Lemma squeeze0_shape (t : tensor_chw Z) (h w : nat) :
  has_shape t 1 h w -> mask_has_shape (squeeze0 t) h w.
Proof.
  intros [Hc Hall]. destruct t as [|p [|q t']]; try discriminate.
  simpl. inversion Hall; subst. assumption.
Qed.

Lemma compute_resized_output_size_edges (h w size nh nw : Z) :
  0 < h -> 0 < w -> 0 < size ->
  compute_resized_output_size h w size = Ok (nh, nw) ->
  Z.min nh nw = size /\
  (w <= h -> nw = size /\ nh = Z.quot (size * h) w) /\
  (h < w -> nh = size /\ nw = Z.quot (size * w) h) /\
  (h = w -> nh = size /\ nw = size).
Proof.
  intros Hh Hw Hs. unfold compute_resized_output_size.
  destruct (w <=? h) eqn:Hwh.
  - apply Z.leb_le in Hwh.
    destruct (w =? 0) eqn:He; [apply Z.eqb_eq in He; lia|].
    intros Heq. injection Heq as <- <-.
    assert (Hq : size <= Z.quot (size * h) w).
    { rewrite Z.quot_div_nonneg by nia. apply Z.div_le_lower_bound; nia. }
    split; [lia|]. split; [auto|]. split; [lia|].
    intros ->. rewrite Z.quot_mul by lia. auto.
  - apply Z.leb_gt in Hwh.
    destruct (h =? 0) eqn:He; [apply Z.eqb_eq in He; lia|].
    intros Heq. injection Heq as <- <-.
    assert (Hq : size <= Z.quot (size * w) h).
    { rewrite Z.quot_div_nonneg by nia. apply Z.div_le_lower_bound; nia. }
    split; [lia|]. split; [lia|]. split; [auto|]. lia.
Qed.

(** The shape of a resized tensor is the computed output size. *)
Lemma resize_shape `{Torchvision} (t t' : tensor_chw Z) (c h w : nat)
    (size : Z) (mode : InterpolationMode) :
  kernel_gives_requested_size ->
  has_shape t c h w -> (0 < c)%nat -> (0 < h)%nat -> (0 < w)%nat ->
  resize t size mode = Ok t' ->
  exists nh nw,
    compute_resized_output_size (Z.of_nat h) (Z.of_nat w) size = Ok (nh, nw) /\
    has_shape t' c (Z.to_nat nh) (Z.to_nat nw).
Proof.
  intros Hk Ht Hc Hh0 Hw0 Hr.
  pose proof (has_shape_height _ _ _ _ Ht Hc) as Hh.
  pose proof (has_shape_width _ _ _ _ Ht Hc Hh0) as Hw.
  apply resize_Ok in Hr. destruct Hr as [nh [nw [Hsz Hcase]]].
  rewrite Hh, Hw in Hsz. exists nh, nw. split; [exact Hsz|].
  destruct Hcase as [[Hsame_h [Hsame_w ->]]|[Hnh [Hnw ->]]].
  - rewrite Hsame_h, Hsame_w, Hh, Hw. rewrite !Nat2Z.id. exact Ht.
  - destruct Ht as [Hlen _]. destruct mode.
    + rewrite <- Hlen. apply Hk; assumption.
    + rewrite <- Hlen. apply interpolate_nearest_exact_shape.
Qed.

(** ** Normalisation statistics *)

Lemma TiffDataset_init_Ok (imgs : list image_hwc) (masks : list mask_hw)
    (size : Z) (tr : bool) (ds : TiffDataset) :
  TiffDataset_init imgs masks size tr = Ok ds ->
  images ds = imgs /\ gt_masks ds = masks /\ input_size ds = size /\
  get_mean_std imgs = Ok (mean ds, std ds).
Proof.
  unfold TiffDataset_init. intros Hi. apply bind_Ok in Hi.
  destruct Hi as [[m s] [Hms Hi]]. injection Hi as <-. simpl. auto.
Qed.

Lemma get_mean_std_Ok (imgs : list image_hwc) (m s : float) :
  get_mean_std imgs = Ok (m, s) ->
  exists lo hi,
    amin (ravel4 imgs) = Ok lo /\ amax (ravel4 imgs) = Ok hi /\ lo <= hi /\
    (forall x, In x (ravel4 imgs) -> lo <= x <= hi) /\
    m = fmean (map (fun x => true_divide (x - lo) (hi - lo)) (ravel4 imgs)) /\
    s = fstd (map (fun x => true_divide (x - lo) (hi - lo)) (ravel4 imgs)) /\
    (lo < hi ->
     m = Num (Rmean (min_max_scaled (ravel4 imgs) lo hi)) /\
     s = Num (Rstd (min_max_scaled (ravel4 imgs) lo hi)) /\
     (0 < Rstd (min_max_scaled (ravel4 imgs) lo hi))%R) /\
    (lo = hi -> m = NaN /\ s = NaN).
Proof.
  intros Hg.
  assert (Hne : ravel4 imgs <> []).
  { intros He. rewrite (get_mean_std_empty _ He) in Hg. discriminate. }
  destruct (amin_spec _ Hne) as [lo [Hmin [Hlo_in Hlo]]].
  destruct (amax_spec _ Hne) as [hi [Hmax [Hhi_in Hhi]]].
  exists lo, hi.
  assert (Hb : forall x, In x (ravel4 imgs) -> lo <= x <= hi).
  { intros x Hx. split; [apply Hlo|apply Hhi]; exact Hx. }
  split; [exact Hmin|]. split; [exact Hmax|].
  split; [apply Hlo; exact Hhi_in|]. split; [exact Hb|].
  assert (Hms : m = fmean (map (fun x => true_divide (x - lo) (hi - lo)) (ravel4 imgs))
                /\ s = fstd (map (fun x => true_divide (x - lo) (hi - lo)) (ravel4 imgs))).
  { unfold get_mean_std in Hg. rewrite Hmin, Hmax in Hg. cbn [bind] in Hg.
    injection Hg as <- <-. auto. }
  destruct Hms as [Hm Hs]. split; [exact Hm|]. split; [exact Hs|]. split.
  - intros Hlt.
    rewrite (get_mean_std_scaled imgs lo hi Hne Hmin Hmax) in Hg by lia.
    injection Hg as <- <-. split; [reflexivity|]. split; [reflexivity|].
    apply Rstd_pos with (x := (IZR (lo - lo) / IZR (hi - lo))%R)
                        (y := (IZR (hi - lo) / IZR (hi - lo))%R).
    + apply in_map_iff. exists lo. auto.
    + apply in_map_iff. exists hi. auto.
    + assert (0 < IZR (hi - lo))%R by (apply IZR_lt; lia).
      rewrite Z.sub_diag. unfold Rdiv at 1. rewrite Rmult_0_l.
      unfold Rdiv. rewrite Rinv_r by lra. lra.
  - intros ->.
    rewrite (get_mean_std_constant imgs hi Hne Hmin Hmax) in Hg.
    injection Hg as <- <-. auto.
Qed.

(** The deviation stored at construction is never the zero that
    [normalize] refuses. *)
Lemma TiffDataset_init_std (imgs : list image_hwc) (masks : list mask_hw)
    (size : Z) (tr : bool) (ds : TiffDataset) :
  TiffDataset_init imgs masks size tr = Ok ds -> float_is_zero (std ds) = false.
Proof.
  intros Hi. apply TiffDataset_init_Ok in Hi. destruct Hi as [_ [_ [_ Hg]]].
  apply get_mean_std_Ok in Hg.
  destruct Hg as [lo [hi [_ [_ [Hle [_ [_ [_ [Hlt Heq]]]]]]]]].
  destruct (Z.eq_dec lo hi) as [He|Hne].
  - destruct (Heq He) as [_ ->]. reflexivity.
  - destruct Hlt as [_ [-> Hpos]]; [lia|]. unfold float_is_zero.
    destruct (Req_dec_T _ 0) as [Hz|_]; [lra|reflexivity].
Qed.

Lemma getitem_normalized `{Torchvision} (ds : TiffDataset) (index : Z)
    (img : tensor_chw float) (mask : mask_hw) :
  getitem ds index = Ok (img, mask) ->
  exists raw rimg,
    np_index (images ds) index = Ok raw /\
    resize (to_image raw) (input_size ds) BILINEAR = Ok rimg /\
    img = normalized_with (mean ds) (std ds) rimg.
Proof.
  intros Hg. unfold getitem in Hg.
  apply bind_Ok in Hg. destruct Hg as [raw [Hraw Hg]].
  apply bind_Ok in Hg. destruct Hg as [raw_mask [_ Hg]].
  apply apply_transform_Ok in Hg.
  destruct Hg as [rimg [rmsk [Hri [_ [_ [-> _]]]]]].
  exists raw, rimg. auto.
Qed.



(** ** Loops in the result monad *)

Lemma foldM_invariant {A S : Type} (f : S -> A -> result S) (P : S -> Prop) :
  (forall s a s', f s a = Ok s' -> P s -> P s') ->
  forall l s s', P s -> foldM f l s = Ok s' -> P s'.
Proof.
  intros Hstep l. induction l as [|a l IH]; intros s s' Hs Hf; simpl in Hf.
  - injection Hf as <-. exact Hs.
  - apply bind_Ok in Hf. destruct Hf as [s1 [H1 Hf]].
    apply (IH s1 s'); [|exact Hf]. apply (Hstep s a s1 H1 Hs).
Qed.




(** ** One training step *)

Lemma train_batch_with_Ok `{Notebook} (g : bool) (size : Z) (st st' : train_state)
    (batch : list sample) :
  train_batch_with g size st batch = Ok st' ->
  exists out_upscaled,
    mapM (fun o => interpolate_bilinear o size)
         (Net (weights (model st))
              (get_intermediate_layers (weights (dinov2 st)) (map fst batch)))
    = Ok out_upscaled /\
    let feats := forward_dinov2 g st (map fst batch) in
    let stepped := step (backward (zero_grad st) feats (map fst batch) (map snd batch)) in
    let stats := get_stats (map argmax_classes out_upscaled) (map snd batch)
                           num_classes in
    dinov2 st' = dinov2 stepped /\ model st' = model stepped /\
    optim st' = optim stepped /\
    losses st' = losses st ++ [loss_fn out_upscaled (map snd batch)] /\
    tps st' = tps st ++ [fst (fst (fst stats))] /\
    fps st' = fps st ++ [snd (fst (fst stats))] /\
    fns st' = fns st ++ [snd (fst stats)] /\
    tns st' = tns st ++ [snd stats].
Proof.
  unfold train_batch_with. intros Ht. apply bind_Ok in Ht.
  destruct Ht as [out_upscaled [Hup Ht]]. exists out_upscaled.
  split; [exact Hup|].
  destruct (get_stats _ _ _) as [[[tp fp] fn] tn].
  injection Ht as <-. simpl. repeat split; reflexivity.
Qed.

(** Under [torch.no_grad()] a step leaves the transformer alone, whatever
    the optimizer was built on and whatever gradient the transformer's
    parameters carried before. *)
Lemma train_batch_frame `{Notebook} (size : Z) (st st' : train_state)
    (batch : list sample) :
  train_batch size st batch = Ok st' ->
  weights (dinov2 st') = weights (dinov2 st).
Proof.
  intros Ht. apply train_batch_with_Ok in Ht.
  destruct Ht as [up [_ [Hd _]]]. rewrite Hd.
  unfold step, backward, zero_grad, forward_dinov2. simpl.
  destruct optim_has_dino; simpl; [reflexivity|].
  destruct (grad (dinov2 st)); reflexivity.
Qed.

Lemma train_batch_head `{Notebook} (size : Z) (st st' : train_state)
    (batch : list sample) :
  train_batch size st batch = Ok st' ->
  weights (model st')
  = if optim_has_net
    then optim_update_net (optim st) (weights (model st))
           (net_backward (weights (model st))
              (get_intermediate_layers (weights (dinov2 st)) (map fst batch))
              (map snd batch) None)
    else weights (model st).
Proof.
  intros Ht. apply train_batch_with_Ok in Ht.
  destruct Ht as [up [_ [_ [Hm _]]]]. rewrite Hm.
  unfold step, backward, zero_grad, forward_dinov2. simpl.
  destruct optim_has_net; simpl; [|reflexivity].
  destruct optim_has_dino; reflexivity.
Qed.

Lemma train_epoch_frame `{Torchvision} `{Notebook} (ds : TiffDataset)
    (batch_size : nat) (size : Z) (st st' : train_state) (e : nat) :
  train_epoch ds batch_size size st e = Ok st' ->
  weights (dinov2 st') = weights (dinov2 st).
Proof.
  unfold train_epoch. intros Hf.
  revert Hf.
  apply (foldM_invariant
           (fun s idxs => batch <- mapM (getitem ds) idxs ;; train_batch size s batch)
           (fun s => weights (dinov2 s) = weights (dinov2 st)));
    [|reflexivity].
  intros s idxs s' Hs Hinv. apply bind_Ok in Hs.
  destruct Hs as [batch [_ Hs]]. apply train_batch_frame in Hs. congruence.
Qed.

(** Without [no_grad] an optimizer built on all parameters would move the
    transformer: the guard is what the frame property rests on. *)
Lemma train_batch_with_grad_moves_transformer `{Notebook} (size : Z)
    (st st' : train_state) (batch : list sample) :
  optim_has_dino = true ->
  train_batch_with true size st batch = Ok st' ->
  weights (dinov2 st')
  = optim_update_dino (optim st) (weights (dinov2 st))
      (dino_backward (weights (dinov2 st)) (map fst batch) (map snd batch) None).
Proof.
  intros Hd Ht. apply train_batch_with_Ok in Ht.
  destruct Ht as [up [_ [Hdino _]]]. rewrite Hdino.
  unfold step, backward, zero_grad, forward_dinov2. simpl.
  rewrite Hd. simpl. reflexivity.
Qed.

(** ** Bilinear upsampling *)

Lemma arange_nth (n i d : Z) :
  0 <= i < n -> nth (Z.to_nat i) (arange n) d = i.
Proof.
  intros Hi. unfold arange.
  rewrite (nth_indep _ d (Z.of_nat 0)) by (rewrite length_map, length_seq; lia).
  rewrite map_nth. rewrite seq_nth by lia. lia.
Qed.

Lemma bilinear_source_range (dst in_size out_size : Z) :
  0 <= dst -> 0 < in_size -> 0 < out_size ->
  let '(i0, i1, lam) := bilinear_source dst in_size out_size in
  0 <= i0 /\ i0 <= i1 /\ i1 <= i0 + 1 /\ i1 < in_size /\ (0 <= lam <= 1)%R.
Proof.
  intros Hd Hi Ho. unfold bilinear_source.
  set (n := Z.max 0 ((2 * dst + 1) * in_size - out_size)).
  assert (Hq : 0 <= n / (2 * out_size)) by (apply Z.div_pos; lia).
  set (i0 := Z.min (n / (2 * out_size)) (in_size - 1)).
  assert (H0 : 0 <= i0 <= in_size - 1) by (unfold i0; lia).
  repeat split; try lia.
  - destruct (i0 <? in_size - 1); lia.
  - destruct (i0 <? in_size - 1); lia.
  - destruct (i0 <? in_size - 1) eqn:Hlt; [apply Z.ltb_lt in Hlt|]; lia.
  - apply Rmin_glb; [apply Rmax_r | lra].
  - apply Rmin_r.
Qed.


Lemma interpolate_bilinear_Ok (t u : tensor_chw R) (size : Z) :
  interpolate_bilinear t size = Ok u ->
  0 < height t /\ 0 < width t /\ 0 < size /\
  has_shape u (length t) (Z.to_nat size) (Z.to_nat size) /\
  forall c plane i j,
    nth_error t c = Some plane -> 0 <= i < size -> 0 <= j < size ->
    pixel (nth c u []) i j = bilinear_pixel plane (height t) (width t) size i j.
Proof.
  unfold interpolate_bilinear. intros Hi.
  destruct ((height t <=? 0) || (width t <=? 0) || (size <=? 0)) eqn:Hguard;
    [discriminate|].
  apply orb_false_iff in Hguard. destruct Hguard as [Hguard Hs].
  apply orb_false_iff in Hguard. destruct Hguard as [Hh Hw].
  apply Z.leb_gt in Hh, Hw, Hs. injection Hi as <-.
  split; [exact Hh|]. split; [exact Hw|]. split; [exact Hs|]. split.
  - split; [apply length_map|]. apply Forall_forall. intros plane Hp.
    apply in_map_iff in Hp. destruct Hp as [p [<- _]]. split.
    + rewrite length_map. apply arange_length.
    + apply Forall_forall. intros row Hr. apply in_map_iff in Hr.
      destruct Hr as [i [<- _]]. rewrite length_map. apply arange_length.
  - intros c plane i j Hc Hi Hj.
    set (F := fun p : list (list R) =>
                map (fun i0 => map (fun j0 =>
                  bilinear_pixel p (height t) (width t) size i0 j0)
                  (arange size)) (arange size)).
    change (pixel (nth c (map F t) []) i j
            = bilinear_pixel plane (height t) (width t) size i j).
    assert (Hnth : nth c (map F t) [] = F plane).
    { rewrite (nth_indep _ [] (F [])).
      - rewrite map_nth. f_equal. apply nth_error_nth. exact Hc.
      - rewrite length_map. apply nth_error_Some. congruence. }
    rewrite Hnth. unfold pixel at 1, F.
    set (G := fun i0 => map (fun j0 =>
                bilinear_pixel plane (height t) (width t) size i0 j0)
                (arange size)).
    rewrite (nth_indep _ [] (G 0)) by (rewrite length_map, arange_length; lia).
    rewrite map_nth. rewrite arange_nth by lia. unfold G.
    set (K := fun j0 => bilinear_pixel plane (height t) (width t) size i j0).
    rewrite (nth_indep _ 0%R (K 0)) by (rewrite length_map, arange_length; lia).
    rewrite map_nth. rewrite arange_nth by lia. reflexivity.
Qed.


(** ** Slices and ranges *)



Lemma loader_batches_length (order : list Z) (batch_size : nat) :
  length (loader_batches order batch_size)
  = loader_len (length order) batch_size.
Proof. unfold loader_batches. rewrite length_map, length_seq. reflexivity. Qed.

(** ** What the loops append to a list of the state *)

Lemma foldM_appends {A S X : Type} (f : S -> A -> result S) (proj : S -> list X) :
  (forall s a s', f s a = Ok s' -> exists x, proj s' = proj s ++ [x]) ->
  forall l s s', foldM f l s = Ok s' ->
    exists xs, length xs = length l /\ proj s' = proj s ++ xs.
Proof.
  intros Hstep l. induction l as [|a l IH]; intros s s' Hf; simpl in Hf.
  - injection Hf as <-. exists []. rewrite app_nil_r. auto.
  - apply bind_Ok in Hf. destruct Hf as [s1 [H1 Hf]].
    destruct (Hstep _ _ _ H1) as [x Hx].
    destruct (IH _ _ Hf) as [xs [Hlen Hxs]].
    exists (x :: xs). split; [simpl; lia|].
    rewrite Hxs, Hx, <- app_assoc. reflexivity.
Qed.

Lemma foldM_grows {A S X : Type} (f : S -> A -> result S) (proj : S -> list X)
    (n : nat) :
  (forall s a s', f s a = Ok s' ->
     exists xs, length xs = n /\ proj s' = proj s ++ xs) ->
  forall l s s', foldM f l s = Ok s' ->
    exists xs, length xs = (length l * n)%nat /\ proj s' = proj s ++ xs.
Proof.
  intros Hstep l. induction l as [|a l IH]; intros s s' Hf; simpl in Hf.
  - injection Hf as <-. exists []. rewrite app_nil_r. auto.
  - apply bind_Ok in Hf. destruct Hf as [s1 [H1 Hf]].
    destruct (Hstep _ _ _ H1) as [x [Hn Hx]].
    destruct (IH _ _ Hf) as [xs [Hlen Hxs]].
    exists (x ++ xs). split; [rewrite length_app; simpl; lia|].
    rewrite Hxs, Hx, <- app_assoc. reflexivity.
Qed.

Section EpochStats.

Context `{Torchvision} `{Notebook}.
Variables (ds : TiffDataset) (batch_size : nat) (size : Z).

(** Each of the four lists of the training cell. *)
Variable proj : train_state -> list (list (list Z)).
Hypothesis proj_stat :
  proj = tps \/ proj = fps \/ proj = fns \/ proj = tns.

Lemma train_batch_appends (s s' : train_state) (batch : list sample) :
  train_batch size s batch = Ok s' -> exists x, proj s' = proj s ++ [x].
Proof.
  intros Ht. apply train_batch_with_Ok in Ht.
  destruct Ht as [up [_ [_ [_ [_ [_ [Htp [Hfp [Hfn Htn]]]]]]]]].
  destruct proj_stat as [-> | [-> | [-> | ->]]]; eauto.
Qed.



End EpochStats.


Lemma nth_error_map_seq {B : Type} (g : nat -> B) (n k : nat) :
  (k < n)%nat -> nth_error (map g (seq 0 n)) k = Some (g k).
Proof.
  intros Hk. rewrite nth_error_map.
  rewrite (nth_error_nth' _ 0%nat) by (rewrite length_seq; exact Hk).
  rewrite seq_nth by exact Hk. reflexivity.
Qed.

(** ** The loops return *)

Lemma mapM_returns {A B : Type} (f : A -> result B) (l : list A) :
  (forall a, In a l -> exists b, f a = Ok b) -> exists r, mapM f l = Ok r.
Proof.
  induction l as [|a l IH]; intros Hall; simpl.
  - eauto.
  - destruct (Hall a (or_introl eq_refl)) as [b Hb]. rewrite Hb. simpl.
    destruct IH as [r Hr]; [intros x Hx; apply Hall; right; exact Hx|].
    rewrite Hr. simpl. eauto.
Qed.

Lemma foldM_returns {A S : Type} (f : S -> A -> result S) (l : list A) :
  (forall s a, In a l -> exists s', f s a = Ok s') ->
  forall s, exists s', foldM f l s = Ok s'.
Proof.
  induction l as [|a l IH]; intros Hall s; simpl.
  - eauto.
  - destruct (Hall s a (or_introl eq_refl)) as [s1 H1]. rewrite H1. simpl.
    apply IH. intros x b Hb. apply Hall. right. exact Hb.
Qed.

Lemma interpolate_bilinear_returns (t : tensor_chw R) (size : Z) :
  0 < height t -> 0 < width t -> 0 < size ->
  exists u, interpolate_bilinear t size = Ok u.
Proof.
  intros Hh Hw Hs. unfold interpolate_bilinear.
  replace (height t <=? 0) with false by (symmetry; apply Z.leb_gt; lia).
  replace (width t <=? 0) with false by (symmetry; apply Z.leb_gt; lia).
  replace (size <=? 0) with false by (symmetry; apply Z.leb_gt; lia).
  simpl. eauto.
Qed.

Lemma train_batch_returns `{Notebook} (size : Z) (st : train_state)
    (batch : list sample) :
  net_output_nonempty -> 0 < size ->
  exists st', train_batch size st batch = Ok st'.
Proof.
  intros Hnet Hsize. unfold train_batch, train_batch_with.
  destruct (mapM_returns (fun o => interpolate_bilinear o size)
              (Net (weights (model st))
                 (value (forward_dinov2 false st (map fst batch)))))
    as [up Hup].
  { intros o Ho. destruct (Hnet _ _ _ Ho) as [Hh Hw].
    apply interpolate_bilinear_returns; assumption. }
  rewrite Hup. cbn [bind].
  destruct (get_stats _ _ _) as [[[tp fp] fn] tn]. eauto.
Qed.

Lemma train_loop_returns `{Torchvision} `{Notebook} (ds : TiffDataset)
    (batch_size : nat) (size : Z) (epochs : nat) (st : train_state) :
  net_output_nonempty -> 0 < size ->
  (forall e idxs i, In idxs (loader_batches (sampler e) batch_size) ->
     In i idxs -> exists smp, getitem ds i = Ok smp) ->
  exists st', train_loop ds batch_size size epochs st = Ok st'.
Proof.
  intros Hnet Hsize Hget. unfold train_loop. apply foldM_returns.
  intros s e _. unfold train_epoch. apply foldM_returns.
  intros s1 idxs Hidxs.
  destruct (mapM_returns (getitem ds) idxs) as [batch Hbatch].
  { intros i Hi. apply (Hget e idxs i Hidxs Hi). }
  rewrite Hbatch. cbn [bind]. apply train_batch_returns; assumption.
Qed.


(** ** What [getitem] needs to return *)

Lemma resized_mask_labels `{Torchvision} (ds : TiffDataset) (index : Z)
    (raw_mask : mask_hw) (rmsk : tensor_chw Z) :
  class_labels_only (gt_masks ds) ->
  np_index (gt_masks ds) index = Ok raw_mask ->
  resize (to_image (expand_dims raw_mask)) (input_size ds) NEAREST_EXACT
  = Ok rmsk ->
  forall v, In v (ravel3 rmsk) -> 0 <= v < 7.
Proof.
  intros Honly Hidx Hr v Hv.
  destruct (resized_mask_values _ _ _ _ Hr Hv) as [Hin|Hz]; [|subst v; lia].
  eapply stack_mask_labels; [exact Honly| |exact Hin].
  eapply np_index_In. exact Hidx.
Qed.

Lemma getitem_returns `{Torchvision} (ds : TiffDataset) (index : Z)
    (raw_img : image_hwc) (raw_mask : mask_hw) (h w c : nat) :
  class_labels_only (gt_masks ds) ->
  np_index (images ds) index = Ok raw_img ->
  np_index (gt_masks ds) index = Ok raw_mask ->
  has_shape raw_img h w c -> mask_has_shape raw_mask h w ->
  (0 < h)%nat -> (0 < w)%nat -> (0 < c)%nat ->
  0 < input_size ds -> float_is_zero (std ds) = false ->
  exists img rmsk,
    getitem ds index = Ok (img, squeeze0 rmsk) /\
    resize [raw_mask] (input_size ds) NEAREST_EXACT = Ok rmsk.
Proof.
  intros Honly Hi Hm Hsi Hsm Hh Hw Hc Hsize Hstd.
  pose proof (to_image_shape _ _ _ _ Hsi Hh Hw) as Hti.
  pose proof (mask_first_row _ _ _ Hsm Hh Hw) as Hrow.
  pose proof (mask_tensor_shape _ _ _ Hsm) as Htm.
  destruct (resize_returns (to_image raw_img) (input_size ds) BILINEAR)
    as [rimg Hri].
  { rewrite (has_shape_height _ _ _ _ Hti Hc). lia. }
  { rewrite (has_shape_width _ _ _ _ Hti Hc Hh). lia. }
  { exact Hsize. }
  destruct (resize_returns [raw_mask] (input_size ds) NEAREST_EXACT)
    as [rmsk Hrm].
  { rewrite (has_shape_height _ _ _ _ Htm Nat.lt_0_1). lia. }
  { rewrite (has_shape_width _ _ _ _ Htm Nat.lt_0_1 Hh). lia. }
  { exact Hsize. }
  assert (Hcheck : forallb (fun v => isin v (arange 7)) (unique (ravel3 rmsk))
                   = true).
  { apply assertion_holds. apply (resized_mask_labels ds index raw_mask rmsk Honly Hm).
    rewrite (to_image_mask _ Hrow). exact Hrm. }
  eexists. exists rmsk. split; [|exact Hrm].
  unfold getitem. rewrite Hi, Hm. cbn [bind]. unfold apply_transform.
  rewrite (to_image_mask _ Hrow). rewrite Hri, Hrm. cbn [bind].
  unfold normalize. rewrite Hstd. cbn [bind].
  rewrite to_dtype_long_id. rewrite Hcheck. reflexivity.
Qed.

(** ** The concrete data *)

Lemma grey_square_shape (side : nat) (v : Z) :
  has_shape (grey_square side v) side side 3.
Proof.
  unfold grey_square. split; [apply repeat_length|].
  apply Forall_forall. intros row Hrow. apply repeat_spec in Hrow. subst row.
  split; [apply repeat_length|].
  apply Forall_forall. intros px Hpx. apply repeat_spec in Hpx. subst px.
  reflexivity.
Qed.

Lemma train_dataset_ex_init :
  TiffDataset_init train_images_ex train_masks_ex 1 true = Ok train_dataset_ex.
Proof. reflexivity. Qed.

Lemma square_dataset_ex_init :
  TiffDataset_init square_images_ex square_masks_ex dino_input_size true
  = Ok square_dataset_ex.
Proof. reflexivity. Qed.

Lemma wide_dataset_ex_init :
  TiffDataset_init wide_images_ex wide_masks_ex dino_input_size true
  = Ok wide_dataset_ex.
Proof. reflexivity. Qed.

Lemma train_masks_ex_labels : class_labels_only train_masks_ex.
Proof.
  intros v Hv. unfold num_classes. simpl in Hv.
  repeat (destruct Hv as [Hv|Hv]; [subst v; lia|]). contradiction.
Qed.

Lemma square_masks_ex_labels : class_labels_only square_masks_ex.
Proof.
  intros v Hv. unfold num_classes. simpl in Hv.
  repeat (destruct Hv as [Hv|Hv]; [subst v; lia|]). contradiction.
Qed.

Lemma train_dataset_ex_getitem (i : Z) :
  In i [0; 1; 2; 3] ->
  exists smp, @getitem uint8_torchvision train_dataset_ex i = Ok smp.
Proof.
  intros Hi.
  assert (Hraw : exists v m, np_index train_images_ex i = Ok (grey v) /\
                             np_index train_masks_ex i = Ok [[m]]).
  { simpl in Hi.
    repeat (destruct Hi as [Hi|Hi];
            [subst i; eexists; eexists; split; reflexivity|]).
    contradiction. }
  destruct Hraw as [v [m [Himg Hmask]]].
  destruct (@getitem_returns uint8_torchvision train_dataset_ex i (grey v) [[m]]
              1 1 3) as [img [rmsk [Hg _]]].
  - exact train_masks_ex_labels.
  - exact Himg.
  - exact Hmask.
  - apply grey_square_shape.
  - split; [reflexivity|]. repeat constructor.
  - lia.
  - lia.
  - lia.
  - simpl. lia.
  - apply (TiffDataset_init_std _ _ _ _ _ train_dataset_ex_init).
  - eauto.
Qed.

Lemma notebook_ex_net_output_nonempty : @net_output_nonempty notebook_ex.
Proof.
  intros w f o Ho. simpl in Ho. apply repeat_spec in Ho. subst o.
  unfold height, width. simpl. lia.
Qed.

Lemma notebook_ex_train_loop_returns (batch_size : nat) (size : Z) (epochs : nat) :
  batch_size = 2%nat -> 0 < size ->
  exists st',
    @train_loop uint8_torchvision notebook_ex train_dataset_ex
      batch_size size epochs state_ex = Ok st'.
Proof.
  intros -> Hsize. apply train_loop_returns.
  - exact notebook_ex_net_output_nonempty.
  - exact Hsize.
  - intros e idxs i Hidxs Hi. apply train_dataset_ex_getitem.
    simpl in Hidxs. destruct Hidxs as [<-|[<-|[]]]; simpl in Hi; simpl; tauto.
Qed.

(** ** The definitions on small inputs *)

Example unique_counts_ex :
  unique_counts [2; 0; 2; 1; 0; 2] = [(0, 2); (1, 1); (2, 3)].
Proof. reflexivity. Qed.

Example np_index_last : np_index [10; 20; 30] (-1) = Ok 30.
Proof. reflexivity. Qed.

Example np_index_out_of_range : np_index [10; 20; 30] 3 = Raise IndexError.
Proof. reflexivity. Qed.

Example to_image_ex :
  to_image [[[1; 2; 3]; [4; 5; 6]]] = [[[1; 4]]; [[2; 5]]; [[3; 6]]].
Proof. reflexivity. Qed.

Example compute_resized_output_size_notebook :
  compute_resized_output_size 800 800 dino_input_size = Ok (420, 420).
Proof. reflexivity. Qed.

(** An image that is not square does not come out square: only its smaller
    edge is matched to the requested size. *)
Example resize_keeps_aspect_ratio :
  compute_resized_output_size 800 1000 420 = Ok (420, 525).
Proof. reflexivity. Qed.

Example nearest_exact_idx_notebook :
  map (fun i => nearest_exact_idx i 800 420) [0; 1; 2; 418; 419]
  = [0; 2; 4; 797; 799].
Proof. reflexivity. Qed.

Example interpolate_nearest_exact_ex :
  interpolate_nearest_exact [[[1; 2]; [3; 4]]] 4 4
  = [[[1; 1; 2; 2]; [1; 1; 2; 2]; [3; 3; 4; 4]; [3; 3; 4; 4]]].
Proof. reflexivity. Qed.

Example loader_batches_ex :
  loader_batches [3; 1; 0; 2; 4] 2 = [[3; 1]; [0; 2]; [4]].
Proof. reflexivity. Qed.

Example range_step_ex : range_step 0 6 2 = [0; 2; 4]%nat.
Proof. reflexivity. Qed.

Example get_mean_std_constant_ex :
  get_mean_std [[[[7; 7; 7]]]] = Ok (NaN, NaN).
Proof. reflexivity. Qed.

Example get_class_weights_ex :
  get_class_weights [[[0; 0; 1]]] = [(1 / 2 / (1 / 2 + (1 / 1 + 0)))%R;
                                     (1 / 1 / (1 / 2 + (1 / 1 + 0)))%R].
Proof. reflexivity. Qed.

(** Two pixels labeled 0 and one labeled 1 give the weights 1/3 and 2/3. *)
Example get_class_weights_thirds :
  get_class_weights [[[0; 0; 1]]] = [(1 / 3)%R; (2 / 3)%R].
Proof.
  rewrite get_class_weights_ex. f_equal; [field|]. f_equal. field.
Qed.

(** The first output pixel reads the first patch only; pixel 7 is the first
    to take a share (1/28) of the second patch. *)
Example bilinear_source_first :
  bilinear_source 0 num_patches dino_input_size = (0, 1, 0%R).
Proof.
  unfold bilinear_source.
  change (Z.max 0 ((2 * 0 + 1) * num_patches - dino_input_size)) with 0.
  change (Z.min (0 / (2 * dino_input_size)) (num_patches - 1)) with 0.
  change (2 * dino_input_size) with 840.
  change (0 <? num_patches - 1) with true. cbv iota.
  f_equal. replace (0 / 840 - 0)%R with 0%R by field.
  rewrite Rmax_left by lra. apply Rmin_left. lra.
Qed.

Example bilinear_source_seventh :
  bilinear_source 7 num_patches dino_input_size = (0, 1, (1 / 28)%R).
Proof.
  unfold bilinear_source.
  change (Z.max 0 ((2 * 7 + 1) * num_patches - dino_input_size)) with 30.
  change (Z.min (30 / (2 * dino_input_size)) (num_patches - 1)) with 0.
  change (2 * dino_input_size) with 840.
  change (0 <? num_patches - 1) with true. cbv iota.
  f_equal. replace (30 / 840 - 0)%R with (1 / 28)%R by field.
  rewrite Rmax_left by lra. apply Rmin_left. lra.
Qed.

(** * The claims *)

(** ** C1: class weights when all seven classes occur *)

(** C1 fails as stated: a mask stack that contains all seven class labels
    0..6 and one more label value gets eight weights, not seven. *)
Lemma get_class_weights_extra_label :
  (forall c, 0 <= c < num_classes ->
     In c (ravel3 [[[0; 1; 2; 3]; [4; 5; 6; 7]]])) /\
  length (get_class_weights [[[0; 1; 2; 3]; [4; 5; 6; 7]]]) = 8%nat.
Proof.
  split.
  - unfold num_classes. intros c Hc.
    assert (Hcases : c = 0 \/ c = 1 \/ c = 2 \/ c = 3 \/ c = 4 \/ c = 5 \/ c = 6)
      by lia.
    simpl. intuition.
  - rewrite get_class_weights_length. reflexivity.
Qed.

(** C1 (amended): for every dataset whose ground-truth mask stack contains
    all seven class labels 0..6 and no other label value,
    [get_class_weights] returns a vector of seven weights, ordered by class
    label (position [c] is the weight of label [c]), in which the weight of
    class [c] is [k * (1 / number of pixels labeled c)] for one positive
    [k], and the weights sum to 1. *)
Theorem get_class_weights_seven_classes (masks : list mask_hw) :
  class_labels_only masks ->
  (forall c, 0 <= c < num_classes -> In c (ravel3 masks)) ->
  length (get_class_weights masks) = 7%nat /\
  (forall c, (c < 7)%nat -> label_at masks c = Some (Z.of_nat c)) /\
  (exists k, (0 < k)%R /\
     forall c, (c < 7)%nat ->
       nth c (get_class_weights masks) 0%R
       = (k * (1 / IZR (pixel_count masks (Z.of_nat c))))%R) /\
  Rsum (get_class_weights masks) = 1%R.
Proof.
  intros Honly Hall.
  assert (Hu : unique (ravel3 masks) = arange num_classes)
    by (apply unique_all_classes; assumption).
  assert (Hlab : forall c, (c < 7)%nat -> label_at masks c = Some (Z.of_nat c)).
  { intros c Hc. unfold label_at. rewrite Hu.
    do 7 (destruct c as [|c]; [reflexivity|]). lia. }
  assert (Hne : ravel3 masks <> []).
  { intros He. specialize (Hall 0). rewrite He in Hall. apply Hall.
    unfold num_classes. lia. }
  split; [|split; [exact Hlab|split]].
  - rewrite get_class_weights_length, Hu. reflexivity.
  - exists (1 / Rsum (map (fun k => (1 / IZR (pixel_count masks k))%R)
                          (unique (ravel3 masks))))%R.
    split.
    + apply inverse_count_sum_pos. exact Hne.
    + intros c Hc. apply get_class_weights_nth. apply Hlab. exact Hc.
  - apply get_class_weights_sum. exact Hne.
Qed.

Lemma get_class_weights_seven_classes_witness :
  class_labels_only [[[0; 1; 2]; [3; 4; 5]]; [[6; 0; 0]; [1; 1; 2]]] /\
  length (get_class_weights [[[0; 1; 2]; [3; 4; 5]]; [[6; 0; 0]; [1; 1; 2]]])
  = 7%nat /\
  Rsum (get_class_weights [[[0; 1; 2]; [3; 4; 5]]; [[6; 0; 0]; [1; 1; 2]]])
  = 1%R.
Proof.
  assert (Honly : class_labels_only
                    [[[0; 1; 2]; [3; 4; 5]]; [[6; 0; 0]; [1; 1; 2]]]).
  { intros v Hv. unfold num_classes. simpl in Hv.
    repeat (destruct Hv as [Hv|Hv]; [subst v; lia|]). contradiction. }
  split; [exact Honly|].
  destruct (get_class_weights_seven_classes
              [[[0; 1; 2]; [3; 4; 5]]; [[6; 0; 0]; [1; 1; 2]]] Honly)
    as [Hlen [_ [_ Hsum]]].
  - unfold num_classes. intros c Hc.
    assert (Hcases : c = 0 \/ c = 1 \/ c = 2 \/ c = 3 \/ c = 4 \/ c = 5 \/ c = 6)
      by lia.
    simpl. intuition.
  - split; assumption.
Defined.

(** ** C2: the mask a dataset yields holds class labels only *)



(** ** C3: the size of what the dataset yields *)

(** C3 fails as stated: [resize] is given the integer [input_size], which
    it matches to the smaller edge only.  From a raw image and mask of 1 x 2
    pixels a dataset with [input_size = 420] yields a mask of 420 x 840 (the
    mask is resampled by the nearest-exact rule, in which the kernel for the
    image has no part). *)
Lemma getitem_wide_image_not_square :
  input_size wide_dataset_ex = dino_input_size /\
  exists img mask,
    @getitem uint8_torchvision wide_dataset_ex 0 = Ok (img, mask) /\
    mask_has_shape mask 420 840 /\ ~ mask_has_shape mask 420 420.
Proof.
  split; [reflexivity|].
  assert (Hmask : mask_has_shape [[0; 1]] 1 2).
  { split; [reflexivity|]. repeat constructor. }
  destruct (@getitem_returns uint8_torchvision wide_dataset_ex 0
              [[[5; 5; 5]; [9; 9; 9]]] [[0; 1]] 1 2 3)
    as [img [rmsk [Hg Hr]]].
  - intros v Hv. unfold num_classes. simpl in Hv.
    repeat (destruct Hv as [Hv|Hv]; [subst v; lia|]). contradiction.
  - reflexivity.
  - reflexivity.
  - split; [reflexivity|]. repeat constructor.
  - exact Hmask.
  - lia.
  - lia.
  - lia.
  - reflexivity.
  - apply (TiffDataset_init_std _ _ _ _ _ wide_dataset_ex_init).
  - exists img, (squeeze0 rmsk). split; [exact Hg|].
    destruct (@resize_shape uint8_torchvision [[[0; 1]]] rmsk 1 1 2
                (input_size wide_dataset_ex) NEAREST_EXACT)
      as [nh [nw [Hsz Hshape]]].
    + intros u nh nw _ _. apply interpolate_nearest_exact_shape.
    + apply mask_tensor_shape. exact Hmask.
    + lia.
    + lia.
    + lia.
    + exact Hr.
    + change (compute_resized_output_size (Z.of_nat 1) (Z.of_nat 2)
                (input_size wide_dataset_ex)) with (@Ok (Z * Z) (420, 840)) in Hsz.
      assert (Hnh : nh = 420) by congruence.
      assert (Hnw : nw = 840) by congruence.
      subst nh nw. apply squeeze0_shape in Hshape.
      split; [exact Hshape|].
      intros [Hrows Hcols]. destruct Hshape as [Hrows' Hcols'].
      destruct (squeeze0 rmsk) as [|row rest]; [discriminate|].
      rewrite Forall_forall in Hcols, Hcols'.
      specialize (Hcols row (or_introl eq_refl)).
      specialize (Hcols' row (or_introl eq_refl)).
      rewrite Hcols in Hcols'. discriminate.
Qed.

(** C3 (amended): [input_size = patch_size * num_patches = 14 * 30 = 420],
    a multiple of the 14-pixel patch size, and every (image, mask) pair that
    a dataset with this [input_size] yields from a square raw image and
    mask (the notebook's are 800 x 800) is 420 x 420; from a raw image that
    is not square the smaller edge becomes 420 and the other one
    [420 * long / short], image and mask alike. *)
Theorem getitem_resized_to_input_size `{Torchvision} (ds : TiffDataset)
    (index : Z) (raw_img : image_hwc) (raw_mask : mask_hw) (h w c : nat)
    (img : tensor_chw float) (mask : mask_hw) :
  kernel_gives_requested_size ->
  input_size ds = dino_input_size ->
  np_index (images ds) index = Ok raw_img ->
  np_index (gt_masks ds) index = Ok raw_mask ->
  has_shape raw_img h w c -> mask_has_shape raw_mask h w ->
  (0 < h)%nat -> (0 < w)%nat -> (0 < c)%nat ->
  getitem ds index = Ok (img, mask) ->
  dino_input_size = patch_size * num_patches /\
  patch_size = 14 /\ num_patches = 30 /\ dino_input_size = 420 /\
  dino_input_size mod patch_size = 0 /\
  exists new_h new_w,
    has_shape img c (Z.to_nat new_h) (Z.to_nat new_w) /\
    mask_has_shape mask (Z.to_nat new_h) (Z.to_nat new_w) /\
    Z.min new_h new_w = 420 /\
    ((w <= h)%nat ->
     new_w = 420 /\ new_h = Z.quot (420 * Z.of_nat h) (Z.of_nat w)) /\
    ((h < w)%nat ->
     new_h = 420 /\ new_w = Z.quot (420 * Z.of_nat w) (Z.of_nat h)) /\
    (h = w -> new_h = 420 /\ new_w = 420 /\
              has_shape img c 420 420 /\ mask_has_shape mask 420 420).
Proof.
  intros Hk Hsize Hi Hm Hsi Hsm Hh Hw Hc Hg.
  repeat (split; [reflexivity|]).
  unfold getitem in Hg. rewrite Hi, Hm in Hg. cbn [bind] in Hg.
  apply apply_transform_Ok in Hg.
  destruct Hg as [rimg [rmsk [Hri [Hrm [_ [-> ->]]]]]].
  rewrite Hsize in Hri, Hrm.
  rewrite (to_image_mask _ (mask_first_row _ _ _ Hsm Hh Hw)) in Hrm.
  destruct (resize_shape _ _ c h w _ _ Hk (to_image_shape _ _ _ _ Hsi Hh Hw)
              Hc Hh Hw Hri) as [nh [nw [Hsz Himg]]].
  destruct (resize_shape _ _ 1%nat h w _ _ Hk (mask_tensor_shape _ _ _ Hsm)
              Nat.lt_0_1 Hh Hw Hrm) as [nh' [nw' [Hsz' Hmsk]]].
  rewrite Hsz in Hsz'. injection Hsz' as <- <-.
  destruct (compute_resized_output_size_edges (Z.of_nat h) (Z.of_nat w)
              dino_input_size nh nw) as [Hmin [Hle [Hlt Heq]]];
    [lia | lia | reflexivity | exact Hsz |].
  change dino_input_size with 420 in Hmin, Hle, Hlt, Heq.
  exists nh, nw.
  split; [apply has_shape_map; exact Himg|].
  split; [apply squeeze0_shape; exact Hmsk|].
  split; [exact Hmin|].
  split; [intros Hwh; apply Hle; lia|].
  split; [intros Hhw; apply Hlt; lia|].
  intros Hsq. destruct Heq as [Hnh Hnw]; [lia|]. subst nh nw.
  split; [reflexivity|]. split; [reflexivity|].
  split; [apply has_shape_map; exact Himg|apply squeeze0_shape; exact Hmsk].
Qed.

Lemma getitem_resized_to_input_size_witness :
  exists img mask,
    @getitem uint8_torchvision square_dataset_ex 0 = Ok (img, mask) /\
    has_shape img 3 420 420 /\ mask_has_shape mask 420 420.
Proof.
  assert (Hmask : mask_has_shape [[0; 1]; [2; 3]] 2 2).
  { split; [reflexivity|]. repeat constructor. }
  destruct (@getitem_returns uint8_torchvision square_dataset_ex 0
              (grey_square 2 10) [[0; 1]; [2; 3]] 2 2 3)
    as [img [rmsk [Hg _]]].
  - exact square_masks_ex_labels.
  - reflexivity.
  - reflexivity.
  - apply grey_square_shape.
  - exact Hmask.
  - lia.
  - lia.
  - lia.
  - reflexivity.
  - apply (TiffDataset_init_std _ _ _ _ _ square_dataset_ex_init).
  - exists img, (squeeze0 rmsk). split; [exact Hg|].
    destruct (@getitem_resized_to_input_size uint8_torchvision
                square_dataset_ex 0 (grey_square 2 10) [[0; 1]; [2; 3]]
                2 2 3 img (squeeze0 rmsk))
      as [_ [_ [_ [_ [_ [nh [nw [_ [_ [_ [_ [_ Hsq]]]]]]]]]]]].
    + intros u nh nw _ _. apply interpolate_nearest_exact_shape.
    + reflexivity.
    + reflexivity.
    + reflexivity.
    + apply grey_square_shape.
    + exact Hmask.
    + lia.
    + lia.
    + lia.
    + exact Hg.
    + destruct (Hsq eq_refl) as [_ [_ [Hi Hm]]]. split; assumption.
Defined.

(** ** C4: training does not touch the transformer *)

(** C4: in the training loop the transformer's features are computed
    inside [torch.no_grad()] (no graph reaches its parameters), every
    optimizer step therefore updates the segmentation head only, and the
    parameters of the pretrained transformer are the same after every batch
    and after every number of epochs as before training, whichever
    parameters the optimizer was built on. *)
Theorem training_leaves_transformer_unchanged `{Torchvision} `{Notebook}
    (ds : TiffDataset) (batch_size : nat) (size : Z) (epochs : nat)
    (st st' : train_state) :
  train_loop ds batch_size size epochs st = Ok st' ->
  weights (dinov2 st') = weights (dinov2 st) /\
  (forall k st_k, (k <= epochs)%nat ->
     train_loop ds batch_size size k st = Ok st_k ->
     weights (dinov2 st_k) = weights (dinov2 st)) /\
  (forall s batch s',
     train_batch size s batch = Ok s' ->
     through_dino (forward_dinov2 false s (map fst batch)) = false /\
     weights (dinov2 s') = weights (dinov2 s) /\
     weights (model s')
     = if optim_has_net
       then optim_update_net (optim s) (weights (model s))
              (net_backward (weights (model s))
                 (get_intermediate_layers (weights (dinov2 s)) (map fst batch))
                 (map snd batch) None)
       else weights (model s)).
Proof.
  assert (Hloop : forall k s s', train_loop ds batch_size size k s = Ok s' ->
                    weights (dinov2 s') = weights (dinov2 s)).
  { intros k s s' Hl. unfold train_loop in Hl. revert Hl.
    apply (foldM_invariant (train_epoch ds batch_size size)
             (fun x => weights (dinov2 x) = weights (dinov2 s)));
      [|reflexivity].
    intros x e x' Hx Hinv. apply train_epoch_frame in Hx. congruence. }
  intros Hl. split; [apply (Hloop epochs); exact Hl|]. split.
  - intros k st_k _ Hk. apply (Hloop k). exact Hk.
  - intros s batch s' Hs. split; [reflexivity|]. split.
    + apply (train_batch_frame size _ _ batch). exact Hs.
    + apply (train_batch_head size). exact Hs.
Qed.

Lemma training_leaves_transformer_unchanged_witness :
  exists st',
    @train_loop uint8_torchvision notebook_ex train_dataset_ex 2 1 3 state_ex
    = Ok st' /\
    weights (@dinov2 notebook_ex st') = weights (@dinov2 notebook_ex state_ex).
Proof.
  destruct (notebook_ex_train_loop_returns 2 1 3 eq_refl) as [st' Hst']; [lia|].
  exists st'. split; [exact Hst'|].
  apply (@training_leaves_transformer_unchanged uint8_torchvision notebook_ex
           train_dataset_ex 2 1 3 state_ex st' Hst').
Defined.

(** ** C5: logits are upsampled before the loss and the statistics *)



(** ** C6: metrics of the training run, one row per epoch *)



(** ** C7: normalisation statistics *)




(** ** C8: the training loss *)



(** ** C9: class weights when a class is absent *)

(** C9 fails as stated: with class 6 absent and a label 7 present the
    vector has seven entries, not fewer. *)
Lemma get_class_weights_absent_but_seven :
  0 <= 6 < num_classes /\
  ~ In 6 (ravel3 [[[0; 1; 2; 3]; [4; 5; 7; 7]]]) /\
  length (get_class_weights [[[0; 1; 2; 3]; [4; 5; 7; 7]]]) = 7%nat.
Proof.
  split; [unfold num_classes; lia|]. split.
  - simpl. intros Hin.
    repeat (destruct Hin as [Hin|Hin]; [discriminate|]). contradiction.
  - rewrite get_class_weights_length. reflexivity.
Qed.

(** C9 (amended): [get_class_weights] returns one weight per distinct label
    value actually present in the mask stack, each the normalised inverse
    count of its label; so if the masks hold no label outside 0..6 and one
    of the seven classes is absent, the returned vector has fewer than seven
    entries and its positions no longer correspond to class labels: the
    position of the absent class does not hold its weight, and every
    position from there on holds the weight of a larger label. *)
Theorem get_class_weights_absent_class (masks : list mask_hw) (c : Z) :
  class_labels_only masks ->
  0 <= c < num_classes -> ~ In c (ravel3 masks) ->
  length (get_class_weights masks)
  = length (nodup Z.eq_dec (ravel3 masks)) /\
  (forall i l, label_at masks i = Some l ->
     In l (ravel3 masks) /\
     exists k, (0 < k)%R /\
       nth i (get_class_weights masks) 0%R
       = (k * (1 / IZR (pixel_count masks l)))%R) /\
  (length (get_class_weights masks) < 7)%nat /\
  label_at masks (Z.to_nat c) <> Some c /\
  forall i, (Z.to_nat c <= i < length (get_class_weights masks))%nat ->
    exists l, label_at masks i = Some l /\ Z.of_nat i < l.
Proof.
  intros Honly Hc Habs.
  split; [|split; [|split; [|split]]].
  - rewrite get_class_weights_length. apply unique_length_nodup.
  - intros i l Hl.
    assert (Hin : In l (ravel3 masks)).
    { apply (proj1 (unique_In _ _)). eapply nth_error_In. exact Hl. }
    split; [exact Hin|].
    eexists. split; [|apply get_class_weights_nth; exact Hl].
    apply inverse_count_sum_pos. intros He. rewrite He in Hin. inversion Hin.
  - rewrite get_class_weights_length.
    assert (Hincl : incl (unique (ravel3 masks))
                         (remove Z.eq_dec c (arange num_classes))).
    { intros x Hx. apply in_in_remove.
      - intros ->. apply Habs. apply (proj1 (unique_In _ _)). exact Hx.
      - apply (proj2 (arange_In _ _)). apply Honly.
        apply (proj1 (unique_In _ _)). exact Hx. }
    apply NoDup_incl_length in Hincl; [|apply sorted_NoDup, unique_sorted].
    assert (Hrem : (length (remove Z.eq_dec c (arange num_classes)) < 7)%nat).
    { change 7%nat with (length (arange num_classes)).
      apply (remove_length_lt Z.eq_dec (arange num_classes) c).
      apply (proj2 (arange_In _ _)). exact Hc. }
    lia.
  - intros Hi. apply Habs. apply (proj1 (unique_In _ _)).
    eapply nth_error_In. exact Hi.
  - intros i [Hci Hil]. rewrite get_class_weights_length in Hil.
    unfold label_at in *.
    destruct (nth_error (unique (ravel3 masks)) i) as [l|] eqn:Hl.
    + exists l. split; [reflexivity|].
      assert (Hlow : 0 + Z.of_nat i <= l).
      { eapply sorted_nth_lower; [apply unique_sorted| |exact Hl].
        intros x Hx. apply (proj1 (unique_In _ _)) in Hx.
        apply Honly in Hx. lia. }
      assert (Hne : l <> Z.of_nat i).
      { intros ->. apply Habs. apply (proj1 (unique_In _ _)).
        apply (nth_error_In _ (Z.to_nat c)).
        replace c with (0 + Z.of_nat (Z.to_nat c)) at 2 by lia.
        apply (sorted_nth_tight _ (unique_sorted _) 0 i).
        - intros x Hx. apply (proj1 (unique_In _ _)) in Hx.
          apply Honly in Hx. lia.
        - exact Hl.
        - exact Hci. }
      lia.
    + apply nth_error_None in Hl. lia.
Qed.

Lemma get_class_weights_absent_class_witness :
  class_labels_only [[[0; 1; 3]; [4; 5; 6]]] /\
  ~ In 2 (ravel3 [[[0; 1; 3]; [4; 5; 6]]]) /\
  (length (get_class_weights [[[0; 1; 3]; [4; 5; 6]]]%Z) < 7)%nat /\
  label_at [[[0; 1; 3]; [4; 5; 6]]] 2 <> Some 2.
Proof.
  assert (Honly : class_labels_only [[[0; 1; 3]; [4; 5; 6]]]).
  { intros v Hv. unfold num_classes. simpl in Hv.
    repeat (destruct Hv as [Hv|Hv]; [subst v; lia|]). contradiction. }
  assert (Habs : ~ In 2 (ravel3 [[[0; 1; 3]; [4; 5; 6]]])).
  { simpl. intros Hin.
    repeat (destruct Hin as [Hin|Hin]; [discriminate|]). contradiction. }
  split; [exact Honly|]. split; [exact Habs|].
  destruct (get_class_weights_absent_class [[[0; 1; 3]; [4; 5; 6]]] 2 Honly)
    as [_ [_ [Hlen [Hpos _]]]].
  - unfold num_classes. lia.
  - exact Habs.
  - split; [exact Hlen|exact Hpos].
Defined.

(** ** C10: the division in [get_mean_std] *)

(** C10: [get_mean_std] divides by [max - min] of the raw image stack; on
    a non-empty stack this divisor is non-zero exactly when the stack
    holds two distinct pixel values, in which case mean and deviation are
    numbers; for a constant stack the divisor is zero, every division is
    0/0 and both results are nan. *)
Theorem get_mean_std_needs_two_values (imgs : list image_hwc) :
  ravel4 imgs <> [] ->
  exists _min _max,
    amin (ravel4 imgs) = Ok _min /\ amax (ravel4 imgs) = Ok _max /\
    (_max - _min <> 0 <->
     exists x y, In x (ravel4 imgs) /\ In y (ravel4 imgs) /\ x <> y) /\
    ((exists m s, get_mean_std imgs = Ok (Num m, Num s)) <->
     _max - _min <> 0) /\
    (_max - _min = 0 ->
     (forall x, In x (ravel4 imgs) ->
        x - _min = 0 /\ true_divide (x - _min) (_max - _min) = NaN) /\
     get_mean_std imgs = Ok (NaN, NaN)).
Proof.
  intros Hne.
  destruct (amin_spec _ Hne) as [lo [Hmin [Hlo_in Hlo]]].
  destruct (amax_spec _ Hne) as [hi [Hmax [Hhi_in Hhi]]].
  exists lo, hi. split; [exact Hmin|]. split; [exact Hmax|].
  assert (Hconst : hi - lo = 0 -> get_mean_std imgs = Ok (NaN, NaN)).
  { intros Hd. assert (hi = lo) by lia. subst hi.
    apply get_mean_std_constant with lo; assumption. }
  split; [|split].
  - split.
    + intros Hd. exists lo, hi. repeat split; try assumption. lia.
    + intros [x [y [Hx [Hy Hxy]]]].
      pose proof (Hlo x Hx). pose proof (Hlo y Hy).
      pose proof (Hhi x Hx). pose proof (Hhi y Hy). lia.
  - split.
    + intros [m [s Hms]] Hd. rewrite (Hconst Hd) in Hms. discriminate.
    + intros Hd. eexists. eexists. apply get_mean_std_scaled; eassumption.
  - intros Hd. split; [|apply Hconst; exact Hd].
    intros x Hx. pose proof (Hlo x Hx). pose proof (Hhi x Hx). split; [lia|].
    unfold true_divide. rewrite Hd. reflexivity.
Qed.

Lemma get_mean_std_needs_two_values_witness :
  ravel4 [grey 7; grey 7] <> [] /\
  get_mean_std [grey 7; grey 7] = Ok (NaN, NaN).
Proof.
  assert (Hne : ravel4 [grey 7; grey 7] <> []) by discriminate.
  split; [exact Hne|].
  destruct (get_mean_std_needs_two_values [grey 7; grey 7] Hne)
    as [lo [hi [Hmin [Hmax [_ [_ Hconst]]]]]].
  apply Hconst.
  change (amin (ravel4 [grey 7; grey 7])) with (@Ok Z 7) in Hmin.
  change (amax (ravel4 [grey 7; grey 7])) with (@Ok Z 7) in Hmax.
  assert (Hlo : lo = 7) by congruence.
  assert (Hhi : hi = 7) by congruence.
  rewrite Hlo, Hhi. reflexivity.
Defined.

(** * Further properties *)

(** ** Class weights *)

Lemma label_at_In (masks : list mask_hw) (i : nat) (l : Z) :
  label_at masks i = Some l -> In l (ravel3 masks).
Proof.
  unfold label_at. intros Hl.
  apply (proj1 (unique_In _ _)). exact (nth_error_In _ _ Hl).
Qed.

Lemma unique_nil (a : list Z) : unique a = [] <-> a = [].
Proof.
  split.
  - intros Hu. destruct a as [|x t]; [reflexivity|].
    assert (Hin : In x (unique (x :: t)))
      by (apply (proj2 (unique_In _ _)); left; reflexivity).
    rewrite Hu in Hin. destruct Hin.
  - intros ->. reflexivity.
Qed.

Lemma Rsum_member_le (l : list R) (x : R) :
  Forall (fun y => (0 <= y)%R) l -> In x l -> (x <= Rsum l)%R.
Proof.
  induction l as [|y t IH]; intros Hall Hin; [destruct Hin|].
  inversion Hall as [|? ? Hy Ht]; subst.
  pose proof (Rsum_nonneg t Ht) as Hs.
  change (Rsum (y :: t)) with (y + Rsum t)%R.
  destruct Hin as [->|Hin].
  - lra.
  - specialize (IH Ht Hin). lra.
Qed.

Lemma Forall_pos_nonneg (l : list R) :
  Forall (fun w => (0 < w)%R) l -> Forall (fun w => (0 <= w)%R) l.
Proof.
  intros Hl. eapply Forall_impl; [|exact Hl]. cbv beta. intros; lra.
Qed.

Lemma get_class_weights_pos (masks : list mask_hw) :
  Forall (fun w => (0 < w)%R) (get_class_weights masks).
Proof.
  destruct (list_eq_dec Z.eq_dec (ravel3 masks) []) as [He|Hne].
  - unfold get_class_weights. rewrite He. constructor.
  - rewrite get_class_weights_unfold.
    pose proof (inverse_count_sum_pos masks Hne) as Hk.
    pose proof (inverse_counts_pos masks) as Hpos.
    rewrite Forall_map in Hpos. rewrite Forall_map.
    eapply Forall_impl; [|exact Hpos]. cbv beta. intros k Hk1.
    set (s := Rsum _) in *.
    replace (1 / IZR (pixel_count masks k) / s)%R
      with ((1 / IZR (pixel_count masks k)) * (1 / s))%R.
    + apply Rmult_lt_0_compat; assumption.
    + unfold Rdiv. ring.
Qed.

(** X1: The weights of a mask stack that holds at least one label form a
    probability vector: there is at least one, each lies in (0, 1], and they
    sum to 1. An empty stack gives the empty vector. *)
Theorem get_class_weights_probability_vector (masks : list mask_hw) :
  (get_class_weights masks = [] <-> ravel3 masks = []) /\
  Forall (fun w => (0 < w <= 1)%R) (get_class_weights masks) /\
  (ravel3 masks <> [] -> Rsum (get_class_weights masks) = 1%R).
Proof.
  split; [|split].
  - rewrite <- (unique_nil (ravel3 masks)).
    pose proof (get_class_weights_length masks) as Hlen.
    split; intros He; rewrite He in Hlen.
    + destruct (unique (ravel3 masks)); [reflexivity|discriminate].
    + destruct (get_class_weights masks); [reflexivity|discriminate].
  - pose proof (get_class_weights_pos masks) as Hpos.
    rewrite Forall_forall in *. intros w Hw. split; [exact (Hpos w Hw)|].
    assert (Hne : ravel3 masks <> []).
    { intros He. unfold get_class_weights in Hw. rewrite He in Hw.
      destruct Hw. }
    rewrite <- (get_class_weights_sum masks Hne).
    apply Rsum_member_le; [|exact Hw].
    apply Forall_pos_nonneg. rewrite Forall_forall. exact Hpos.
  - apply get_class_weights_sum.
Qed.

(** X2: Inverse frequency, for any two labels of the stack: weight times pixel
    count is the same for both, so the label with fewer pixels has the
    strictly larger weight and labels with equally many pixels have equal
    weights. *)
Theorem get_class_weights_inverse_frequency (masks : list mask_hw)
    (i j : nat) (li lj : Z) :
  label_at masks i = Some li -> label_at masks j = Some lj ->
  let w k := nth k (get_class_weights masks) 0%R in
  (w i * IZR (pixel_count masks li) = w j * IZR (pixel_count masks lj))%R /\
  (pixel_count masks li < pixel_count masks lj -> (w j < w i)%R) /\
  (pixel_count masks li = pixel_count masks lj -> w i = w j).
Proof.
  intros Hi Hj w. unfold w.
  rewrite (get_class_weights_nth masks i li Hi).
  rewrite (get_class_weights_nth masks j lj Hj).
  pose proof (label_at_In _ _ _ Hi) as Hini.
  pose proof (label_at_In _ _ _ Hj) as Hinj.
  assert (Hne : ravel3 masks <> []).
  { intros He. rewrite He in Hini. destruct Hini. }
  pose proof (inverse_count_sum_pos masks Hne) as Hk.
  pose proof (pixel_count_pos masks li Hini) as Hci.
  pose proof (pixel_count_pos masks lj Hinj) as Hcj.
  set (k := (1 / Rsum _)%R) in *.
  assert (Hri : (0 < IZR (pixel_count masks li))%R) by (apply IZR_lt; lia).
  assert (Hrj : (0 < IZR (pixel_count masks lj))%R) by (apply IZR_lt; lia).
  split; [|split].
  - field. split; lra.
  - intros Hlt. apply IZR_lt in Hlt.
    apply Rmult_lt_compat_l; [exact Hk|].
    unfold Rdiv. rewrite !Rmult_1_l.
    apply Rinv_lt_contravar; [|exact Hlt].
    apply Rmult_lt_0_compat; assumption.
  - intros ->. reflexivity.
Qed.

Lemma get_class_weights_inverse_frequency_witness :
  label_at [[[0; 0; 1]]] 0 = Some 0 /\ label_at [[[0; 0; 1]]] 1 = Some 1 /\
  (nth 0 (get_class_weights [[[0; 0; 1]]]%Z) 0 * IZR (pixel_count [[[0; 0; 1]]]%Z 0)
   = nth 1 (get_class_weights [[[0; 0; 1]]]%Z) 0
     * IZR (pixel_count [[[0; 0; 1]]]%Z 1))%R.
Proof.
  split; [reflexivity|]. split; [reflexivity|].
  exact (proj1 (get_class_weights_inverse_frequency [[[0; 0; 1]]] 0 1 0 1
                  eq_refl eq_refl)).
Defined.

Lemma unique_counts_permutation (a b : list Z) :
  Permutation a b -> unique_counts a = unique_counts b.
Proof.
  intros Hp.
  assert (Hu : unique a = unique b).
  { apply sorted_same_elements; try apply unique_sorted.
    intros x. rewrite !unique_In.
    split; intros Hx.
    - exact (Permutation_in x Hp Hx).
    - exact (Permutation_in x (Permutation_sym Hp) Hx). }
  assert (Hc : map snd (unique_counts a) = map snd (unique_counts b)).
  { rewrite !unique_counts_counts, Hu.
    apply map_ext. intros k.
    rewrite (proj1 (Permutation_count_occ Z.eq_dec a b) Hp k). reflexivity. }
  unfold unique in Hu.
  revert Hu Hc. generalize (unique_counts a) (unique_counts b).
  induction l as [|[x n] t IH]; intros [|[y m] t'] Hu Hc;
    try discriminate; [reflexivity|].
  cbn in Hu, Hc. injection Hu as -> Hu. injection Hc as -> Hc.
  f_equal. apply IH; assumption.
Qed.

(** X3: The weights depend on the labels of the stack only through how often
    each occurs: two stacks whose labels are a rearrangement of each other
    (masks in another order, pixels at other positions, another height and
    width) get the same weights. *)
Theorem get_class_weights_permutation (masks1 masks2 : list mask_hw) :
  Permutation (ravel3 masks1) (ravel3 masks2) ->
  get_class_weights masks1 = get_class_weights masks2.
Proof.
  intros Hp. unfold get_class_weights.
  rewrite (unique_counts_permutation _ _ Hp). reflexivity.
Qed.

Lemma get_class_weights_permutation_witness :
  get_class_weights [[[0; 1]]; [[1; 2]]] = get_class_weights [[[2; 1]; [1; 0]]].
Proof.
  apply get_class_weights_permutation.
  change (Permutation [0; 1; 1; 2] [2; 1; 1; 0]).
  apply Permutation_rev.
Defined.

(** ** Image statistics *)









Lemma Rsum_map_plus (f g : R -> R) (l : list R) :
  Rsum (map (fun x => (f x + g x)%R) l)
  = (Rsum (map f l) + Rsum (map g l))%R.
Proof.
  induction l as [|x t IH]; cbn [map Rsum fold_right].
  - unfold Rsum; cbn. ring.
  - unfold Rsum in *. cbn [fold_right]. rewrite IH. ring.
Qed.







(** ** Construction of the dataset *)

Lemma TiffDataset_init_returns (imgs : list image_hwc) (masks : list mask_hw)
    (size : Z) (is_train : bool) :
  ravel4 imgs <> [] ->
  exists ds, TiffDataset_init imgs masks size is_train = Ok ds /\
             len ds = Z.of_nat (length imgs) /\ gt_masks ds = masks /\
             input_size ds = size /\ train ds = is_train.
Proof.
  intros Hne.
  destruct (amin_spec _ Hne) as [lo [Hmin _]].
  destruct (amax_spec _ Hne) as [hi [Hmax _]].
  unfold TiffDataset_init, get_mean_std. rewrite Hmin, Hmax.
  cbn [bind]. eexists. split; [reflexivity|].
  repeat split.
Qed.

(** X6: [__init__] fails exactly on a stack without a single pixel value, with
    the [ValueError] of [min()]; otherwise it returns a dataset whose length
    is the number of images and which holds the masks as given, however many
    there are and whatever they contain. *)
Theorem TiffDataset_init_checks_pixels_only (imgs : list image_hwc)
    (masks : list mask_hw) (size : Z) (is_train : bool) :
  (ravel4 imgs = [] <->
   TiffDataset_init imgs masks size is_train = Raise ValueError) /\
  (ravel4 imgs <> [] <->
   exists ds, TiffDataset_init imgs masks size is_train = Ok ds /\
              len ds = Z.of_nat (length imgs) /\ gt_masks ds = masks /\
              input_size ds = size /\ train ds = is_train).
Proof.
  pose proof (TiffDataset_init_returns imgs masks size is_train) as Hok.
  assert (Herr : ravel4 imgs = [] ->
            TiffDataset_init imgs masks size is_train = Raise ValueError).
  { intros He. unfold TiffDataset_init.
    rewrite (get_mean_std_empty imgs He). reflexivity. }
  split; split.
  - exact Herr.
  - intros Hr.
    destruct (list_eq_dec Z.eq_dec (ravel4 imgs) []) as [He|Hne];
      [exact He|].
    destruct (Hok Hne) as [ds [Hds _]]. congruence.
  - exact Hok.
  - intros [ds [Hds _]] He. rewrite (Herr He) in Hds. discriminate.
Qed.

(** ** Indexing the dataset *)

Lemma np_index_spec {A : Type} (a : list A) (index : Z) :
  let n := Z.of_nat (length a) in
  (- n <= index < n -> exists x, np_index a index = Ok x) /\
  (~ (- n <= index < n) -> np_index a index = Raise IndexError).
Proof.
  intros n. unfold np_index. fold n.
  destruct (Z.ltb_spec index 0) as [Hneg|Hpos]; split; intros Hr.
  - destruct (Z.leb_spec 0 (index + n)); [|lia].
    destruct (Z.ltb_spec (index + n) n); [|lia]. cbn [andb].
    destruct (nth_error a (Z.to_nat (index + n))) eqn:Hn; [eauto|].
    apply nth_error_None in Hn. lia.
  - destruct (Z.leb_spec 0 (index + n)); [|reflexivity].
    destruct (Z.ltb_spec (index + n) n); [lia|reflexivity].
  - destruct (Z.leb_spec 0 index); [|lia].
    destruct (Z.ltb_spec index n); [|lia]. cbn [andb].
    destruct (nth_error a (Z.to_nat index)) eqn:Hn; [eauto|].
    apply nth_error_None in Hn. lia.
  - destruct (Z.leb_spec 0 index); [|lia].
    destruct (Z.ltb_spec index n); [lia|reflexivity].
Qed.

Lemma np_index_negative {A : Type} (a : list A) (i : Z) :
  0 <= i < Z.of_nat (length a) ->
  np_index a (i - Z.of_nat (length a)) = np_index a i.
Proof.
  intros Hi. unfold np_index.
  destruct (Z.ltb_spec (i - Z.of_nat (length a)) 0); [|lia].
  destruct (Z.ltb_spec i 0); [lia|].
  replace (i - Z.of_nat (length a) + Z.of_nat (length a)) with i by ring.
  reflexivity.
Qed.

Lemma assertion_fails (values : list Z) :
  forallb (fun v => isin v (arange 7)) (unique values) = false ->
  exists v, In v values /\ ~ 0 <= v < 7.
Proof.
  intros Hf.
  assert (Hex : exists v, In v (unique values) /\ isin v (arange 7) = false).
  { revert Hf. generalize (unique values).
    induction l as [|x t IH]; cbn [forallb]; [discriminate|].
    intros Hf. apply andb_false_iff in Hf. destruct Hf as [Hx|Ht].
    - exists x. split; [left; reflexivity|exact Hx].
    - destruct (IH Ht) as [v [Hv Hi]]. exists v. split; [right|]; assumption. }
  destruct Hex as [v [Hv Hi]]. exists v.
  split; [apply (proj1 (unique_In _ _)); exact Hv|].
  intros Hr. apply (proj2 (arange_In 7 v)) in Hr.
  unfold isin in Hi.
  assert (Ht : existsb (Z.eqb v) (arange 7) = true).
  { apply existsb_exists. exists v. split; [exact Hr|apply Z.eqb_refl]. }
  congruence.
Qed.

(** The exceptions of [apply_transform], each with its cause. *)
Lemma apply_transform_Raise `{Torchvision} (self : TiffDataset)
    (image : image_hwc) (mask : mask_hw) (e : exn) :
  apply_transform self image mask = Raise e ->
  e = ZeroDivisionError \/ e = RuntimeError \/
  (e = ValueError /\ float_is_zero (std self) = true) \/
  (e = AssertionError /\
   exists rmsk v,
     resize (to_image (expand_dims mask)) (input_size self) NEAREST_EXACT
     = Ok rmsk /\
     In v (ravel3 rmsk) /\ ~ 0 <= v < 7).
Proof.
  unfold apply_transform. intros Ha.
  apply bind_Raise in Ha. destruct Ha as [Ha|[rimg [_ Ha]]].
  { apply resize_Raise in Ha. tauto. }
  apply bind_Raise in Ha. destruct Ha as [Ha|[rmsk [Hrm Ha]]].
  { apply resize_Raise in Ha. tauto. }
  apply bind_Raise in Ha. destruct Ha as [Ha|[nimg [_ Ha]]].
  - unfold normalize in Ha.
    destruct (float_is_zero (std self)) eqn:Hz; [|discriminate].
    injection Ha as <-. right. right. left. split; reflexivity.
  - rewrite to_dtype_long_id in Ha.
    destruct (forallb _ _) eqn:Hf; [discriminate|].
    injection Ha as <-. right. right. right. split; [reflexivity|].
    destruct (assertion_fails _ Hf) as [v [Hv Hr]].
    exists rmsk, v. split; [exact Hrm|]. split; assumption.
Qed.

(** X7: [getitem] raises [IndexError] exactly when the index is outside [-n,
    n) for the number [n] of images or for the number of masks. [__len__]
    counts the images only, so with fewer masks than images an index below the
    length raises. *)
Theorem getitem_index_error `{Torchvision} (ds : TiffDataset) (index : Z) :
  getitem ds index = Raise IndexError <->
  ~ (- Z.of_nat (length (images ds)) <= index < Z.of_nat (length (images ds)))
  \/ ~ (- Z.of_nat (length (gt_masks ds)) <= index
        < Z.of_nat (length (gt_masks ds))).
Proof.
  destruct (np_index_spec (images ds) index) as [Hi_ok Hi_err].
  destruct (np_index_spec (gt_masks ds) index) as [Hm_ok Hm_err].
  cbv zeta in *. unfold getitem. split.
  - intros Hg.
    apply bind_Raise in Hg. destruct Hg as [Hg|[image [Himg Hg]]].
    + left. intros Hr. destruct (Hi_ok Hr) as [x Hx]. congruence.
    + apply bind_Raise in Hg. destruct Hg as [Hg|[mask [Hmsk Hg]]].
      * right. intros Hr. destruct (Hm_ok Hr) as [x Hx]. congruence.
      * apply apply_transform_Raise in Hg.
        destruct Hg as [Hg|[Hg|[[Hg _]|[Hg _]]]]; discriminate.
  - intros Hout.
    destruct (Z_le_dec (- Z.of_nat (length (images ds))) index) as [Hlo|Hlo];
      [destruct (Z_lt_dec index (Z.of_nat (length (images ds)))) as [Hhi|Hhi]|].
    + destruct (Hi_ok (conj Hlo Hhi)) as [x ->]. cbn [bind].
      destruct Hout as [Hout|Hout]; [exfalso; apply Hout; lia|].
      rewrite (Hm_err Hout). reflexivity.
    + rewrite Hi_err by lia. reflexivity.
    + rewrite Hi_err by lia. reflexivity.
Qed.

(** X8: Negative indices count from the end: on a dataset with as many masks
    as images, [dataset[i - len(dataset)]] is [dataset[i]], value or exception
    alike. *)
Theorem getitem_negative_index `{Torchvision} (ds : TiffDataset) (i : Z) :
  length (gt_masks ds) = length (images ds) ->
  0 <= i < len ds ->
  getitem ds (i - len ds) = getitem ds i.
Proof.
  intros Hlen Hi. unfold getitem, len in *.
  assert (Hmi : np_index (gt_masks ds) (i - Z.of_nat (length (images ds)))
                = np_index (gt_masks ds) i).
  { rewrite <- Hlen. apply np_index_negative. rewrite Hlen. exact Hi. }
  rewrite (np_index_negative (images ds) i Hi), Hmi.
  reflexivity.
Qed.

Lemma getitem_negative_index_witness :
  @getitem uint8_torchvision train_dataset_ex (3 - len train_dataset_ex)
  = @getitem uint8_torchvision train_dataset_ex 3.
Proof.
  apply (@getitem_negative_index uint8_torchvision train_dataset_ex 3).
  - reflexivity.
  - unfold len. cbn. lia.
Defined.

(** ** Errors and values of the items *)

Lemma getitem_Raise_ValueError `{Torchvision} (ds : TiffDataset) (index : Z) :
  getitem ds index = Raise ValueError -> float_is_zero (std ds) = true.
Proof.
  unfold getitem. intros Hg.
  apply bind_Raise in Hg. destruct Hg as [Hg|[image [_ Hg]]].
  { apply np_index_Raise in Hg. discriminate. }
  apply bind_Raise in Hg. destruct Hg as [Hg|[mask [_ Hg]]].
  { apply np_index_Raise in Hg. discriminate. }
  apply apply_transform_Raise in Hg.
  destruct Hg as [Hg|[Hg|[[_ Hg]|[Hg _]]]]; try discriminate. exact Hg.
Qed.

(** X9: The [ValueError] of [normalize] (a deviation of zero) cannot occur on
    a dataset that [__init__] built, nor on an evaluation dataset that took
    its statistics from one: the deviation [get_mean_std] computes is positive
    or nan. *)
Theorem getitem_never_divides_by_zero_std `{Torchvision}
    (imgs : list image_hwc) (masks : list mask_hw) (size : Z) (is_train : bool)
    (train_dataset : TiffDataset) :
  TiffDataset_init imgs masks size is_train = Ok train_dataset ->
  (forall index, getitem train_dataset index <> Raise ValueError) /\
  (forall test_imgs test_masks test_size test_dataset index,
     evaluation_dataset train_dataset test_imgs test_masks test_size
     = Ok test_dataset ->
     getitem test_dataset index <> Raise ValueError).
Proof.
  intros Hinit.
  pose proof (TiffDataset_init_std _ _ _ _ _ Hinit) as Hstd.
  split.
  - intros index Hg. apply getitem_Raise_ValueError in Hg. congruence.
  - intros test_imgs test_masks test_size test_dataset index Hev Hg.
    apply getitem_Raise_ValueError in Hg.
    unfold evaluation_dataset in Hev.
    apply bind_Ok in Hev. destruct Hev as [td [_ Hev]].
    injection Hev as <-. cbn in Hg. congruence.
Qed.

Lemma getitem_never_divides_by_zero_std_witness :
  TiffDataset_init train_images_ex train_masks_ex 1 true = Ok train_dataset_ex /\
  @getitem uint8_torchvision train_dataset_ex 0 <> Raise ValueError.
Proof.
  split; [exact train_dataset_ex_init|].
  exact (proj1 (@getitem_never_divides_by_zero_std uint8_torchvision
                  train_images_ex train_masks_ex 1 true train_dataset_ex
                  train_dataset_ex_init) 0).
Defined.

Lemma normalized_with_nan `{Torchvision} (rimg : tensor_chw Z) :
  all_nan (normalized_with NaN NaN rimg).
Proof.
  unfold all_nan, normalized_with. intros v Hv.
  apply in_ravel3 in Hv. destruct Hv as [plane [row [Hp [Hr Hv]]]].
  apply in_map_iff in Hp. destruct Hp as [plane0 [<- _]].
  apply in_map_iff in Hr. destruct Hr as [row0 [<- _]].
  apply in_map_iff in Hv. destruct Hv as [x [<- _]].
  reflexivity.
Qed.

(** X10: A stack in which every pixel has the same value gives a dataset that
    is built without error and whose every image comes out as nan in all
    entries. *)
Theorem constant_stack_yields_nan_images `{Torchvision}
    (imgs : list image_hwc) (masks : list mask_hw) (size : Z) (is_train : bool)
    (c : Z) :
  ravel4 imgs <> [] -> (forall x, In x (ravel4 imgs) -> x = c) ->
  exists ds,
    TiffDataset_init imgs masks size is_train = Ok ds /\
    mean ds = NaN /\ std ds = NaN /\
    forall index img mask,
      getitem ds index = Ok (img, mask) -> all_nan img.
Proof.
  intros Hne Hconst.
  destruct (amin_spec _ Hne) as [lo [Hmin [Hlo _]]].
  destruct (amax_spec _ Hne) as [hi [Hmax [Hhi _]]].
  rewrite (Hconst lo Hlo) in Hmin. rewrite (Hconst hi Hhi) in Hmax.
  pose proof (get_mean_std_constant imgs c Hne Hmin Hmax) as Hms.
  unfold TiffDataset_init. rewrite Hms. cbn [bind].
  eexists. split; [reflexivity|]. cbn [mean std].
  split; [reflexivity|]. split; [reflexivity|].
  intros index img mask Hg.
  apply getitem_normalized in Hg.
  destruct Hg as [raw [rimg [_ [_ ->]]]]. cbn [mean std].
  apply normalized_with_nan.
Qed.

Lemma constant_stack_yields_nan_images_witness :
  exists ds,
    TiffDataset_init [grey 7; grey 7] [[[0]]; [[1]]] 1 true = Ok ds /\
    mean ds = NaN /\ std ds = NaN /\
    forall index img mask,
      @getitem uint8_torchvision ds index = Ok (img, mask) -> all_nan img.
Proof.
  apply (@constant_stack_yields_nan_images uint8_torchvision
           [grey 7; grey 7] [[[0]]; [[1]]] 1 true 7).
  - discriminate.
  - intros x Hx. cbn in Hx. intuition congruence.
Defined.

(** ** The mask of an item *)

Lemma getitem_Ok `{Torchvision} (ds : TiffDataset) (index : Z)
    (img : tensor_chw float) (mask : mask_hw) :
  getitem ds index = Ok (img, mask) ->
  exists raw_img raw_mask,
    np_index (images ds) index = Ok raw_img /\
    np_index (gt_masks ds) index = Ok raw_mask /\
    apply_transform ds raw_img raw_mask = Ok (img, mask).
Proof.
  unfold getitem. intros Hg.
  apply bind_Ok in Hg. destruct Hg as [raw_img [Hi Hg]].
  apply bind_Ok in Hg. destruct Hg as [raw_mask [Hm Hg]].
  exists raw_img, raw_mask. auto.
Qed.

(** X11: A ground-truth mask that already is [input_size] x [input_size] is
    yielded as it is stored: it is not resampled, and the conversion to 64-bit
    integers keeps every label. *)
Theorem getitem_mask_unchanged_at_input_size `{Torchvision}
    (ds : TiffDataset) (index : Z) (raw_mask : mask_hw) (n : nat)
    (img : tensor_chw float) (mask : mask_hw) :
  np_index (gt_masks ds) index = Ok raw_mask ->
  mask_has_shape raw_mask n n -> (0 < n)%nat ->
  input_size ds = Z.of_nat n ->
  getitem ds index = Ok (img, mask) ->
  mask = raw_mask.
Proof.
  intros Hm Hshape Hn Hsize Hg.
  apply getitem_Ok in Hg.
  destruct Hg as [raw_img [raw_mask' [_ [Hm' Hat]]]].
  assert (raw_mask' = raw_mask) by congruence. subst raw_mask'.
  apply apply_transform_Ok in Hat.
  destruct Hat as [rimg [rmsk [_ [Hrm [_ [_ ->]]]]]].
  rewrite (to_image_mask raw_mask) in Hrm
    by (apply (mask_first_row raw_mask n n); assumption).
  pose proof (mask_tensor_shape raw_mask n n Hshape) as Hts.
  assert (Hh : height [raw_mask] = Z.of_nat n)
    by (apply (has_shape_height _ 1 n n); [exact Hts|lia]).
  assert (Hw : width [raw_mask] = Z.of_nat n)
    by (apply (has_shape_width _ 1 n n); [exact Hts|lia|exact Hn]).
  rewrite resize_same_size in Hrm.
  - injection Hrm as <-. reflexivity.
  - rewrite Hh, Hw, Hsize. apply compute_resized_output_size_square. lia.
Qed.

Lemma getitem_mask_unchanged_at_input_size_witness :
  exists img,
    @getitem uint8_torchvision train_dataset_ex 3 = Ok (img, [[2]]).
Proof.
  destruct (train_dataset_ex_getitem 3) as [[img mask] Hg].
  { right. right. right. left. reflexivity. }
  exists img. rewrite Hg. f_equal. f_equal.
  apply (@getitem_mask_unchanged_at_input_size uint8_torchvision
           train_dataset_ex 3 [[2]] 1 img mask).
  - reflexivity.
  - split; [reflexivity|]. repeat constructor.
  - lia.
  - reflexivity.
  - exact Hg.
Defined.

(** X12: The assertion of [apply_transform] fails only on a ground-truth mask
    that holds a value outside 0..6: when [getitem] raises [AssertionError],
    the stored mask at that index has such a value. *)
Theorem getitem_assertion_error_cause `{Torchvision} (ds : TiffDataset)
    (index : Z) :
  getitem ds index = Raise AssertionError ->
  exists raw_mask v,
    np_index (gt_masks ds) index = Ok raw_mask /\
    In v (ravel2 raw_mask) /\ ~ 0 <= v <= 6.
Proof.
  unfold getitem. intros Hg.
  apply bind_Raise in Hg. destruct Hg as [Hg|[image [_ Hg]]].
  { apply np_index_Raise in Hg. discriminate. }
  apply bind_Raise in Hg. destruct Hg as [Hg|[mask [Hm Hg]]].
  { apply np_index_Raise in Hg. discriminate. }
  apply apply_transform_Raise in Hg.
  destruct Hg as [Hg|[Hg|[[Hg _]|[_ Hg]]]]; try discriminate.
  destruct Hg as [rmsk [v [Hrm [Hv Hr]]]].
  exists mask, v. split; [exact Hm|].
  destruct (resized_mask_values mask (input_size ds) rmsk v Hrm Hv)
    as [Hin|Hz].
  - split; [exact Hin|lia].
  - exfalso. apply Hr. lia.
Qed.

Lemma getitem_assertion_error_cause_witness :
  exists raw_mask v,
    np_index [[[9]]] 0 = Ok raw_mask /\
    In v (ravel2 raw_mask) /\ ~ 0 <= v <= 6.
Proof.
  apply (@getitem_assertion_error_cause uint8_torchvision
           {| images := [grey 7]; gt_masks := [[[9]]]; input_size := 1;
              train := true; img_h := 1; img_w := 1;
              mean := NaN; std := NaN |} 0).
  reflexivity.
Defined.

(** ** Upsampling of the logits *)

Lemma convex_bounds (lo hi a b l : R) :
  (lo <= a <= hi)%R -> (lo <= b <= hi)%R -> (0 <= l <= 1)%R ->
  (lo <= (1 - l) * a + l * b <= hi)%R.
Proof. intros Ha Hb Hl. split; nra. Qed.

Lemma pixel_In (plane : list (list R)) (h w : nat) (i j : Z) :
  length plane = h -> Forall (fun row => length row = w) plane ->
  0 <= i < Z.of_nat h -> 0 <= j < Z.of_nat w ->
  In (pixel plane i j) (ravel2 plane).
Proof.
  intros Hh Hrows Hi Hj. unfold pixel.
  assert (Hrow : In (nth (Z.to_nat i) plane []) plane)
    by (apply nth_In; lia).
  rewrite Forall_forall in Hrows. pose proof (Hrows _ Hrow) as Hlen.
  apply in_ravel2. exists (nth (Z.to_nat i) plane []).
  split; [exact Hrow|]. apply nth_In. lia.
Qed.

Lemma has_shape_plane {A : Type} (t : tensor_chw A) (c h w k : nat)
    (plane : list (list A)) :
  has_shape t c h w -> nth_error t k = Some plane ->
  length plane = h /\ Forall (fun row => length row = w) plane.
Proof.
  intros [_ Hall] Hk. rewrite Forall_forall in Hall.
  apply Hall. exact (nth_error_In _ _ Hk).
Qed.

Lemma bilinear_pixel_bounds (plane : list (list R)) (h w : nat)
    (size i j : Z) (lo hi : R) :
  length plane = h -> Forall (fun row => length row = w) plane ->
  (0 < h)%nat -> (0 < w)%nat -> 0 < size -> 0 <= i -> 0 <= j ->
  (forall v, In v (ravel2 plane) -> (lo <= v <= hi)%R) ->
  (lo <= bilinear_pixel plane (Z.of_nat h) (Z.of_nat w) size i j <= hi)%R.
Proof.
  intros Hh Hrows Hhp Hwp Hs Hi Hj Hb. unfold bilinear_pixel.
  pose proof (bilinear_source_range i (Z.of_nat h) size Hi) as Hsh.
  pose proof (bilinear_source_range j (Z.of_nat w) size Hj) as Hsw.
  destruct (bilinear_source i (Z.of_nat h) size) as [[h0 h1] lh].
  destruct (bilinear_source j (Z.of_nat w) size) as [[w0 w1] lw].
  destruct Hsh as [Hh0 [Hh01 [_ [Hh1 Hlh]]]]; [lia|lia|].
  destruct Hsw as [Hw0 [Hw01 [_ [Hw1 Hlw]]]]; [lia|lia|].
  assert (Hpx : forall a b, 0 <= a < Z.of_nat h -> 0 <= b < Z.of_nat w ->
                  (lo <= pixel plane a b <= hi)%R).
  { intros a b Ha Hb'. apply Hb. apply (pixel_In plane h w); assumption. }
  apply convex_bounds; [| |exact Hlh];
    apply convex_bounds; try exact Hlw; apply Hpx; lia.
Qed.

(** X13: Bilinear upsampling does not overshoot: each plane of the upsampled
    logits stays within the bounds of the plane it was computed from. *)
Theorem interpolate_bilinear_within_bounds (t u : tensor_chw R)
    (c h w k : nat) (size : Z) (plane uplane : list (list R)) (lo hi : R) :
  has_shape t c h w ->
  interpolate_bilinear t size = Ok u ->
  nth_error t k = Some plane -> nth_error u k = Some uplane ->
  (forall v, In v (ravel2 plane) -> (lo <= v <= hi)%R) ->
  forall v, In v (ravel2 uplane) -> (lo <= v <= hi)%R.
Proof.
  intros Hshape Hi Hk Hku Hb v Hv.
  assert (Hc : (0 < c)%nat).
  { destruct Hshape as [Hlen _]. rewrite <- Hlen.
    apply Nat.le_lt_trans with k; [lia|].
    apply nth_error_Some. congruence. }
  destruct (has_shape_plane t c h w k plane Hshape Hk) as [Hh Hrows].
  pose proof (interpolate_bilinear_Ok t u size Hi) as [Hht [Hwt [Hs _]]].
  pose proof (has_shape_height t c h w Hshape Hc) as Hheq.
  assert (Hhp : (0 < h)%nat) by lia.
  pose proof (has_shape_width t c h w Hshape Hc Hhp) as Hweq.
  assert (Hwp : (0 < w)%nat) by lia.
  unfold interpolate_bilinear in Hi.
  destruct ((height t <=? 0) || (width t <=? 0) || (size <=? 0));
    [discriminate|].
  injection Hi as <-.
  rewrite nth_error_map, Hk in Hku. cbn in Hku. injection Hku as <-.
  apply in_ravel2 in Hv. destruct Hv as [row [Hrow Hv]].
  apply in_map_iff in Hrow. destruct Hrow as [i [<- Hi]].
  apply in_map_iff in Hv. destruct Hv as [j [<- Hj]].
  apply arange_In in Hi, Hj.
  rewrite Hheq, Hweq.
  apply (bilinear_pixel_bounds plane h w); try assumption; lia.
Qed.

Lemma interpolate_bilinear_within_bounds_witness :
  (0 <= bilinear_pixel [[0; 1]]%R 1 2 2 0 1 <= 1)%R.
Proof.
  apply (interpolate_bilinear_within_bounds
           [[[0; 1]]]%R
           [[[bilinear_pixel [[0; 1]]%R 1 2 2 0 0;
              bilinear_pixel [[0; 1]]%R 1 2 2 0 1];
             [bilinear_pixel [[0; 1]]%R 1 2 2 1 0;
              bilinear_pixel [[0; 1]]%R 1 2 2 1 1]]]
           1 1 2 0 2 [[0; 1]]%R
           [[bilinear_pixel [[0; 1]]%R 1 2 2 0 0;
             bilinear_pixel [[0; 1]]%R 1 2 2 0 1];
            [bilinear_pixel [[0; 1]]%R 1 2 2 1 0;
             bilinear_pixel [[0; 1]]%R 1 2 2 1 1]] 0 1).
  - split; [reflexivity|]. repeat constructor.
  - reflexivity.
  - reflexivity.
  - reflexivity.
  - intros v [<-|[<-|[]]]; lra.
  - right. left. reflexivity.
Defined.

Lemma bilinear_source_same_size (i n : Z) :
  0 <= i < n -> exists i1, bilinear_source i n n = (i, i1, 0%R).
Proof.
  intros Hi. unfold bilinear_source.
  assert (Hn : Z.max 0 ((2 * i + 1) * n - n) = i * (2 * n))
    by (rewrite Z.max_r by nia; ring).
  rewrite Hn. rewrite Z.div_mul by lia. rewrite Z.min_l by lia.
  eexists. f_equal.
  rewrite mult_IZR.
  replace (IZR i * IZR (2 * n) / IZR (2 * n) - IZR i)%R with 0%R.
  - rewrite Rmax_left by lra. apply Rmin_left. lra.
  - field. apply not_0_IZR. lia.
Qed.

Lemma map_nth_arange {A : Type} (l : list A) (d : A) :
  map (fun i => nth (Z.to_nat i) l d) (arange (Z.of_nat (length l))) = l.
Proof.
  unfold arange. rewrite Nat2Z.id, map_map.
  rewrite (map_ext _ (fun k => nth k l d))
    by (intros k; rewrite Nat2Z.id; reflexivity).
  induction l as [|x t IH]; [reflexivity|].
  cbn [length]. rewrite <- cons_seq, <- seq_shift. cbn [map].
  rewrite map_map. cbn [nth]. f_equal. exact IH.
Qed.

Lemma map_ext_arange {B : Type} (f g : Z -> B) (n : Z) :
  (forall i, 0 <= i < n -> f i = g i) -> map f (arange n) = map g (arange n).
Proof.
  intros Hfg. apply map_ext_in. intros i Hi. apply Hfg, arange_In, Hi.
Qed.

(** X14: Upsampling to the size the logits already have changes nothing: on a
    square [size] x [size] tensor [F.interpolate] returns its input. *)
Theorem interpolate_bilinear_same_size (t : tensor_chw R) (c n : nat) :
  has_shape t c n n -> (0 < c)%nat -> (0 < n)%nat ->
  interpolate_bilinear t (Z.of_nat n) = Ok t.
Proof.
  intros Hshape Hc Hn.
  pose proof (has_shape_height t c n n Hshape Hc) as Hh.
  pose proof (has_shape_width t c n n Hshape Hc Hn) as Hw.
  unfold interpolate_bilinear. rewrite Hh, Hw.
  destruct (Z.leb_spec (Z.of_nat n) 0) as [|_]; [lia|]. cbn [orb].
  apply (f_equal Ok). rewrite <- (map_id_eq t) at 2.
  apply map_ext_in. intros plane Hp.
  destruct Hshape as [_ Hall]. rewrite Forall_forall in Hall.
  destruct (Hall plane Hp) as [Hlen Hrows].
  cbv beta.
  transitivity (map (fun i => nth (Z.to_nat i) plane [])
                    (arange (Z.of_nat n)));
    [|pose proof (map_nth_arange plane []) as E;
      rewrite Hlen in E; exact E].
  apply map_ext_arange. intros i Hi.
  assert (Hrow : length (nth (Z.to_nat i) plane []) = n).
  { rewrite Forall_forall in Hrows. apply Hrows. apply nth_In. lia. }
  transitivity (map (fun j => nth (Z.to_nat j) (nth (Z.to_nat i) plane []) 0%R)
                    (arange (Z.of_nat n)));
    [|pose proof (map_nth_arange (nth (Z.to_nat i) plane []) 0%R) as E;
      rewrite Hrow in E; exact E].
  apply map_ext_arange. intros j Hj.
  unfold bilinear_pixel.
  destruct (bilinear_source_same_size i (Z.of_nat n) Hi) as [i1 ->].
  destruct (bilinear_source_same_size j (Z.of_nat n) Hj) as [j1 ->].
  unfold pixel. ring.
Qed.

Lemma interpolate_bilinear_same_size_witness :
  interpolate_bilinear [[[1; 2]; [3; 4]]]%R 2 = Ok [[[1; 2]; [3; 4]]]%R.
Proof.
  apply (interpolate_bilinear_same_size [[[1; 2]; [3; 4]]]%R 1 2).
  - split; [reflexivity|]. repeat constructor.
  - lia.
  - lia.
Defined.

(** ** Predicted classes *)

(** [argmax_from] continues a scan: [pre] has been read, its first largest
    entry is [best] at [best_i]. *)
Lemma argmax_from_spec (t pre : list R) (best : R) (best_i : Z) :
  0 <= best_i < Z.of_nat (length pre) ->
  nth (Z.to_nat best_i) pre 0%R = best ->
  (forall x, In x pre -> (x <= best)%R) ->
  (forall k, 0 <= k < best_i -> (nth (Z.to_nat k) pre 0 < best)%R) ->
  let r := argmax_from best best_i (Z.of_nat (length pre)) t in
  let l := pre ++ t in
  0 <= r < Z.of_nat (length l) /\
  (forall x, In x l -> (x <= nth (Z.to_nat r) l 0)%R) /\
  (forall k, 0 <= k < r -> (nth (Z.to_nat k) l 0 < nth (Z.to_nat r) l 0)%R).
Proof.
  revert pre best best_i.
  induction t as [|x t IH]; intros pre best best_i Hi Hb Hmax Hfirst.
  - cbn [argmax_from]. cbv zeta. rewrite app_nil_r.
    split; [exact Hi|]. rewrite Hb. split; assumption.
  - cbn [argmax_from]. cbv zeta.
    replace (pre ++ x :: t) with ((pre ++ [x]) ++ t)
      by (rewrite <- app_assoc; reflexivity).
    assert (Hlen : Z.of_nat (length pre) + 1 = Z.of_nat (length (pre ++ [x])))
      by (rewrite length_app; cbn; lia).
    rewrite Hlen.
    destruct (Rlt_dec best x) as [Hlt|Hge].
    + apply IH.
      * rewrite <- Hlen. lia.
      * rewrite Nat2Z.id, app_nth2 by lia. rewrite Nat.sub_diag. reflexivity.
      * intros y Hy. apply in_app_iff in Hy. destruct Hy as [Hy|[<-|[]]].
        -- specialize (Hmax y Hy). lra.
        -- lra.
      * intros k Hk. rewrite app_nth1 by lia.
        assert (Hin : In (nth (Z.to_nat k) pre 0%R) pre) by (apply nth_In; lia).
        specialize (Hmax _ Hin). lra.
    + apply IH.
      * rewrite <- Hlen. lia.
      * rewrite app_nth1 by lia. exact Hb.
      * intros y Hy. apply in_app_iff in Hy. destruct Hy as [Hy|[<-|[]]].
        -- exact (Hmax y Hy).
        -- lra.
      * intros k Hk. rewrite app_nth1 by lia. apply Hfirst. exact Hk.
Qed.

Lemma argmax_spec (l : list R) :
  l <> [] ->
  0 <= argmax l < Z.of_nat (length l) /\
  (forall x, In x l -> (x <= nth (Z.to_nat (argmax l)) l 0)%R) /\
  (forall k, 0 <= k < argmax l ->
     (nth (Z.to_nat k) l 0 < nth (Z.to_nat (argmax l)) l 0)%R).
Proof.
  destruct l as [|x t]; [congruence|]. intros _.
  apply (argmax_from_spec t [x] x 0).
  - cbn. lia.
  - reflexivity.
  - intros y [<-|[]]. lra.
  - intros k Hk. lia.
Qed.

Lemma argmax_classes_pixel (t : tensor_chw R) (i j : Z) :
  0 <= i < height t -> 0 <= j < width t ->
  nth (Z.to_nat j) (nth (Z.to_nat i) (argmax_classes t) []) 0
  = argmax (map (fun plane => pixel plane i j) t).
Proof.
  intros Hi Hj. unfold argmax_classes.
  set (G := fun i0 => map (fun j0 =>
              argmax (map (fun plane => pixel plane i0 j0) t))
              (arange (width t))).
  change (nth (Z.to_nat j) (nth (Z.to_nat i) (map G (arange (height t))) []) 0
          = argmax (map (fun plane => pixel plane i j) t)).
  rewrite (nth_indep _ [] (G 0)) by (rewrite length_map, arange_length; lia).
  rewrite map_nth, arange_nth by lia. unfold G.
  set (K := fun j0 => argmax (map (fun plane => pixel plane i j0) t)).
  rewrite (nth_indep _ 0 (K 0)) by (rewrite length_map, arange_length; lia).
  rewrite map_nth, arange_nth by lia. reflexivity.
Qed.

(** X15: The predicted mask has the height and width of the logits, and at
    every pixel it holds the index of a plane: with [C] planes every predicted
    label lies in [0, C), the logit of the predicted class is at least the
    logit of every class at that pixel, and strictly larger than that of every
    class with a smaller index (ties go to the smallest class). *)
Theorem argmax_classes_largest_logit (t : tensor_chw R) :
  t <> [] ->
  mask_has_shape (argmax_classes t) (Z.to_nat (height t)) (Z.to_nat (width t)) /\
  (forall v, In v (ravel2 (argmax_classes t)) ->
     0 <= v < Z.of_nat (length t)) /\
  forall i j, 0 <= i < height t -> 0 <= j < width t ->
    let k := nth (Z.to_nat j) (nth (Z.to_nat i) (argmax_classes t) []) 0 in
    0 <= k < Z.of_nat (length t) /\
    (forall c, 0 <= c < Z.of_nat (length t) ->
       (pixel (nth (Z.to_nat c) t []) i j
        <= pixel (nth (Z.to_nat k) t []) i j)%R) /\
    (forall c, 0 <= c < k ->
       (pixel (nth (Z.to_nat c) t []) i j
        < pixel (nth (Z.to_nat k) t []) i j)%R).
Proof.
  intros Hne.
  assert (Hlogits : forall i j,
            map (fun plane => pixel plane i j) t <> [])
    by (intros i j He; apply map_eq_nil in He; contradiction).
  assert (Hnth : forall i j c, 0 <= c < Z.of_nat (length t) ->
            nth (Z.to_nat c) (map (fun plane => pixel plane i j) t) 0%R
            = pixel (nth (Z.to_nat c) t []) i j).
  { intros i j c Hc.
    rewrite (nth_indep _ 0%R (pixel [] i j)) by (rewrite length_map; lia).
    apply (map_nth (fun plane => pixel plane i j)). }
  split; [|split].
  - unfold argmax_classes. split.
    + rewrite length_map. apply arange_length.
    + apply Forall_forall. intros row Hr. apply in_map_iff in Hr.
      destruct Hr as [i [<- _]]. rewrite length_map. apply arange_length.
  - intros v Hv. apply in_ravel2 in Hv. destruct Hv as [row [Hr Hv]].
    unfold argmax_classes in Hr. apply in_map_iff in Hr.
    destruct Hr as [i [<- _]]. apply in_map_iff in Hv.
    destruct Hv as [j [<- _]].
    pose proof (argmax_spec _ (Hlogits i j)) as [Hr _].
    rewrite length_map in Hr. exact Hr.
  - intros i j Hi Hj. cbv zeta. rewrite (argmax_classes_pixel t i j Hi Hj).
    pose proof (argmax_spec _ (Hlogits i j)) as [Hr [Hmax Hfirst]].
    rewrite length_map in Hr.
    split; [exact Hr|]. split.
    + intros c Hc. rewrite <- !Hnth by lia. apply Hmax.
      apply nth_In. rewrite length_map. lia.
    + intros c Hc. rewrite <- !Hnth by lia. apply Hfirst. exact Hc.
Qed.

Lemma argmax_classes_largest_logit_witness :
  mask_has_shape (argmax_classes [[[1; 5]]; [[3; 2]]]%R) 1 2.
Proof.
  assert (Hne : [[[1; 5]]; [[3; 2]]]%R <> []) by discriminate.
  exact (proj1 (argmax_classes_largest_logit _ Hne)).
Defined.

(** ** Batches of the data loader *)

Lemma firstn_add_skipn {A : Type} (a b : nat) (l : list A) :
  firstn (a + b) l = firstn a l ++ firstn b (skipn a l).
Proof.
  revert l. induction a as [|a IH]; intros l; [reflexivity|].
  destruct l as [|x t]; [cbn; rewrite firstn_nil; reflexivity|].
  cbn [Nat.add firstn skipn app]. rewrite IH. reflexivity.
Qed.

Lemma concat_slices {A : Type} (l : list A) (batch_size m : nat) :
  concat (map (fun k => slice l (k * batch_size) (k * batch_size + batch_size))
              (seq 0 m))
  = firstn (m * batch_size) l.
Proof.
  induction m as [|m IH]; [reflexivity|].
  rewrite seq_S, map_app, concat_app, IH. cbn [map concat Nat.add].
  rewrite app_nil_r. unfold slice.
  replace (m * batch_size + batch_size - m * batch_size)%nat
    with batch_size by lia.
  replace (S m * batch_size)%nat with (m * batch_size + batch_size)%nat by lia.
  symmetry. apply firstn_add_skipn.
Qed.

Lemma loader_len_bounds (n batch_size : nat) :
  (0 < batch_size)%nat ->
  (n <= loader_len n batch_size * batch_size)%nat /\
  (0 < n -> loader_len n batch_size * batch_size < n + batch_size)%nat.
Proof.
  intros Hb. unfold loader_len.
  pose proof (Nat.div_mod_eq (n + batch_size - 1) batch_size) as Hdm.
  pose proof (Nat.mod_upper_bound (n + batch_size - 1) batch_size) as Hr.
  split; [|intros Hn]; nia.
Qed.

(** X16: The batches of one pass cut the order of the sampler into consecutive
    pieces: put together they give every index of the order once and in that
    order, no batch is empty or longer than [batch_size], and every batch but
    the last has exactly [batch_size] indices. *)
Theorem loader_batches_partition (order : list Z) (batch_size : nat) :
  (0 < batch_size)%nat ->
  concat (loader_batches order batch_size) = order /\
  forall k b, nth_error (loader_batches order batch_size) k = Some b ->
    (0 < length b <= batch_size)%nat /\
    (S k < length (loader_batches order batch_size) ->
     length b = batch_size)%nat.
Proof.
  intros Hb.
  destruct (loader_len_bounds (length order) batch_size Hb) as [Hle Hlt].
  split.
  - unfold loader_batches. rewrite concat_slices.
    apply firstn_all2. exact Hle.
  - intros k b Hk. rewrite loader_batches_length.
    assert (Hkm : (k < loader_len (length order) batch_size)%nat).
    { rewrite <- loader_batches_length. apply nth_error_Some. congruence. }
    unfold loader_batches in Hk.
    rewrite nth_error_map_seq in Hk by exact Hkm.
    injection Hk as <-. unfold slice.
    rewrite length_firstn, length_skipn.
    assert (Hn : (0 < length order)%nat).
    { destruct (length order); [|lia].
      unfold loader_len in Hkm. cbn [Nat.add] in Hkm.
      rewrite Nat.div_small in Hkm by lia. lia. }
    specialize (Hlt Hn). split; [|intros Hlast]; nia.
Qed.

Lemma loader_batches_partition_witness :
  concat (loader_batches [3; 1; 0; 2; 4] 2) = [3; 1; 0; 2; 4].
Proof.
  assert (Hb : (0 < 2)%nat) by lia.
  exact (proj1 (loader_batches_partition [3; 1; 0; 2; 4] 2 Hb)).
Defined.

(** ** The metric cell at its edges *)

Lemma range_step_length (stop step : nat) :
  length (range_step 0 stop step) = loader_len stop step.
Proof.
  unfold range_step, loader_len. rewrite length_map, length_seq.
  rewrite Nat.sub_0_r. reflexivity.
Qed.

Lemma loader_len_zero (n step : nat) :
  (0 < step)%nat -> loader_len n step = 0%nat <-> n = 0%nat.
Proof.
  intros Hs. destruct (loader_len_bounds n step Hs) as [Hle Hlt].
  split.
  - intros Hz. rewrite Hz in Hle. lia.
  - intros ->. unfold loader_len. cbn [Nat.add].
    apply Nat.div_small. lia.
Qed.

(** X17: On lists as the loops leave them (equally long) the metric cell fails
    exactly when [num_batches] is 0 ([range] refuses the step) or nothing was
    recorded ([np.vstack] refuses the empty list), both times with
    [ValueError]; otherwise each of the three arrays has one row per started
    group of [num_batches] entries, a last shorter group included. *)
Theorem calculate_metrics_rows `{Notebook} (st : train_state)
    (num_batches : nat) :
  length (fps st) = length (tps st) ->
  length (fns st) = length (tps st) ->
  length (tns st) = length (tps st) ->
  (calculate_metrics st num_batches = Raise ValueError <->
   num_batches = 0%nat \/ tps st = []) /\
  (forall e, calculate_metrics st num_batches = Raise e -> e = ValueError) /\
  (forall accs f1_scores ious,
     calculate_metrics st num_batches = Ok (accs, f1_scores, ious) ->
     length accs = loader_len (length (tps st)) num_batches /\
     length f1_scores = loader_len (length (tps st)) num_batches /\
     length ious = loader_len (length (tps st)) num_batches).
Proof.
  intros _ _ _. unfold calculate_metrics.
  destruct (Nat.eqb_spec num_batches 0) as [Hz|Hnz].
  { split; [|split].
    - split; [intros _; left; exact Hz|reflexivity].
    - intros e He. congruence.
    - intros accs f1_scores ious Hc. discriminate. }
  pose proof (range_step_length (length (tps st)) num_batches) as Hlen.
  pose proof (loader_len_zero (length (tps st)) num_batches) as Hzero.
  destruct (range_step 0 (length (tps st)) num_batches) as [|i0 starts] eqn:Hs.
  - assert (Ht : tps st = []).
    { apply length_zero_iff_nil. apply Hzero; [lia|]. rewrite <- Hlen.
      reflexivity. }
    split; [|split].
    + split; [intros _; right; exact Ht|reflexivity].
    + intros e He. congruence.
    + intros accs f1_scores ious Hc. discriminate.
  - split; [|split].
    + split; [discriminate|]. intros [Hc|Hc]; [contradiction|].
      exfalso. rewrite Hc in Hlen. cbn [length] in Hlen.
      assert (Hl0 : loader_len 0 num_batches = 0%nat)
        by (apply (loader_len_zero 0 num_batches); [lia|reflexivity]).
      rewrite Hl0 in Hlen. discriminate.
    + intros e He. discriminate.
    + intros accs f1_scores ious Hc. injection Hc as <- <- <-.
      cbn [map length] in *. rewrite !length_map. auto.
Qed.

Lemma calculate_metrics_rows_witness :
  @calculate_metrics notebook_ex state_ex 2 = Raise ValueError.
Proof.
  apply (proj1 (@calculate_metrics_rows notebook_ex state_ex 2
                  eq_refl eq_refl eq_refl)).
  right. reflexivity.
Defined.

(** ** What one run of the loops leaves behind *)

Lemma foldM_iterates {A S X : Type} (f : S -> A -> result S) (proj : S -> X)
    (g : X -> X) (n : nat) :
  (forall s a s', f s a = Ok s' -> proj s' = Nat.iter n g (proj s)) ->
  forall l s s', foldM f l s = Ok s' ->
    proj s' = Nat.iter (length l * n) g (proj s).
Proof.
  intros Hf. induction l as [|a t IH]; intros s s' Hl.
  - cbn in Hl. injection Hl as <-. reflexivity.
  - cbn [foldM] in Hl. apply bind_Ok in Hl. destruct Hl as [s1 [H1 Hl]].
    rewrite (IH _ _ Hl), (Hf _ _ _ H1).
    rewrite <- Nat.iter_add. f_equal. cbn [length]. lia.
Qed.

Lemma train_batch_optim `{Notebook} (size : Z) (st st' : train_state)
    (batch : list sample) :
  train_batch size st batch = Ok st' -> optim st' = optim_next (optim st).
Proof.
  intros Ht. apply train_batch_with_Ok in Ht.
  destruct Ht as [up [_ [_ [_ [Ho _]]]]]. exact Ho.
Qed.

Lemma train_batch_losses `{Notebook} (size : Z) (st st' : train_state)
    (batch : list sample) :
  train_batch size st batch = Ok st' -> exists x, losses st' = losses st ++ [x].
Proof.
  intros Ht. apply train_batch_with_Ok in Ht.
  destruct Ht as [up [_ [_ [_ [_ [Hl _]]]]]]. eauto.
Qed.

Lemma train_loop_grows `{Torchvision} `{Notebook} {X : Type}
    (proj : train_state -> list X) (ds : TiffDataset) (batch_size : nat)
    (size : Z) (epochs n : nat) (st st' : train_state) :
  (forall s batch s', train_batch size s batch = Ok s' ->
     exists x, proj s' = proj s ++ [x]) ->
  (forall e, loader_len (length (sampler e)) batch_size = n) ->
  train_loop ds batch_size size epochs st = Ok st' ->
  length (proj st') = (length (proj st) + epochs * n)%nat.
Proof.
  intros Hbatch Hn Hl. unfold train_loop in Hl.
  apply (foldM_grows _ proj n) in Hl.
  - destruct Hl as [xs [Hlen ->]].
    rewrite length_app, Hlen, length_seq. reflexivity.
  - intros s e s' He. unfold train_epoch in He.
    apply (foldM_appends _ proj) in He.
    + destruct He as [xs [Hlen Hxs]]. exists xs. split; [|exact Hxs].
      rewrite Hlen, loader_batches_length. apply Hn.
    + intros s0 idxs s1 Hs. apply bind_Ok in Hs.
      destruct Hs as [batch [_ Hs]]. exact (Hbatch _ _ _ Hs).
Qed.

(** X18: One loss value, one entry of each statistic and one optimizer step
    per batch: after [epochs] epochs over a loader of [n] batches each of the
    five lists is longer by [epochs * n] and the optimizer has stepped [epochs
    * n] times. *)
Theorem train_loop_one_record_per_batch `{Torchvision} `{Notebook}
    (ds : TiffDataset) (batch_size : nat) (size : Z) (epochs n : nat)
    (st st' : train_state) :
  (0 < batch_size)%nat ->
  (forall e, loader_len (length (sampler e)) batch_size = n) ->
  train_loop ds batch_size size epochs st = Ok st' ->
  length (losses st') = (length (losses st) + epochs * n)%nat /\
  length (tps st') = (length (tps st) + epochs * n)%nat /\
  length (fps st') = (length (fps st) + epochs * n)%nat /\
  length (fns st') = (length (fns st) + epochs * n)%nat /\
  length (tns st') = (length (tns st) + epochs * n)%nat /\
  optim st' = Nat.iter (epochs * n) optim_next (optim st).
Proof.
  intros _ Hn Hl.
  repeat split.
  - apply (train_loop_grows losses ds batch_size size epochs n); try assumption.
    intros s batch s' Hs. exact (train_batch_losses _ _ _ _ Hs).
  - apply (train_loop_grows tps ds batch_size size epochs n); try assumption.
    intros s batch s' Hs.
    apply (train_batch_appends size tps (or_introl eq_refl) s s' batch Hs).
  - apply (train_loop_grows fps ds batch_size size epochs n); try assumption.
    intros s batch s' Hs.
    apply (train_batch_appends size fps (or_intror (or_introl eq_refl))
             s s' batch Hs).
  - apply (train_loop_grows fns ds batch_size size epochs n); try assumption.
    intros s batch s' Hs.
    apply (train_batch_appends size fns
             (or_intror (or_intror (or_introl eq_refl))) s s' batch Hs).
  - apply (train_loop_grows tns ds batch_size size epochs n); try assumption.
    intros s batch s' Hs.
    apply (train_batch_appends size tns
             (or_intror (or_intror (or_intror eq_refl))) s s' batch Hs).
  - unfold train_loop in Hl.
    apply (foldM_iterates _ optim optim_next n) in Hl.
    + rewrite length_seq in Hl. exact Hl.
    + intros s e s' He. unfold train_epoch in He.
      apply (foldM_iterates _ optim optim_next 1) in He.
      * rewrite Nat.mul_1_r, loader_batches_length, Hn in He. exact He.
      * intros s0 idxs s1 Hs. apply bind_Ok in Hs.
        destruct Hs as [batch [_ Hs]].
        exact (train_batch_optim _ _ _ _ Hs).
Qed.

Lemma train_loop_one_record_per_batch_witness :
  exists st',
    @train_loop uint8_torchvision notebook_ex train_dataset_ex 2 1 3 state_ex
    = Ok st' /\
    length (@losses notebook_ex st') = 6%nat /\
    @optim notebook_ex st' = 6%nat.
Proof.
  destruct (notebook_ex_train_loop_returns 2 1 3 eq_refl) as [st' Hst]; [lia|].
  exists st'. split; [exact Hst|].
  destruct (@train_loop_one_record_per_batch uint8_torchvision notebook_ex
              train_dataset_ex 2 1 3 2 state_ex st' Nat.lt_0_2
              (fun e => eq_refl) Hst)
    as [Hl [_ [_ [_ [_ Ho]]]]].
  split; [exact Hl|exact Ho].
Defined.



(** ** The evaluation loop *)

Lemma eval_batch_Ok `{Notebook} (size : Z) (st st' : train_state)
    (batch : list sample) :
  eval_batch size st batch = Ok st' ->
  dinov2 st' = dinov2 st /\ model st' = model st /\ optim st' = optim st /\
  (exists x, losses st' = losses st ++ [x]) /\
  (exists x, tps st' = tps st ++ [x]) /\
  (exists x, fps st' = fps st ++ [x]) /\
  (exists x, fns st' = fns st ++ [x]) /\
  (exists x, tns st' = tns st ++ [x]).
Proof.
  unfold eval_batch. intros He.
  apply bind_Ok in He. destruct He as [up [_ He]].
  destruct (get_stats _ _ _) as [[[tp fp] fn] tn].
  injection He as <-. cbn. repeat split; eauto.
Qed.

Lemma eval_batch_returns `{Notebook} (size : Z) (st : train_state)
    (batch : list sample) :
  net_output_nonempty -> 0 < size ->
  exists st', eval_batch size st batch = Ok st'.
Proof.
  intros Hnet Hsize. unfold eval_batch.
  destruct (mapM_returns (fun o => interpolate_bilinear o size)
              (Net (weights (model st))
                 (value (forward_dinov2 false st (map fst batch)))))
    as [up Hup].
  { intros o Ho. destruct (Hnet _ _ _ Ho) as [Hh Hw].
    apply interpolate_bilinear_returns; assumption. }
  rewrite Hup. cbn [bind].
  destruct (get_stats _ _ _) as [[[tp fp] fn] tn]. eauto.
Qed.

Lemma eval_loop_grows `{Torchvision} `{Notebook} {X : Type}
    (proj : train_state -> list X) (ds : TiffDataset) (batch_size : nat)
    (size : Z) (st st' : train_state) :
  (forall s batch s', eval_batch size s batch = Ok s' ->
     exists x, proj s' = proj s ++ [x]) ->
  eval_loop ds batch_size size st = Ok st' ->
  length (proj st')
  = (length (proj st) + loader_len (length (images ds)) batch_size)%nat.
Proof.
  intros Hbatch Hl. unfold eval_loop in Hl.
  apply (foldM_appends _ proj) in Hl.
  - destruct Hl as [xs [Hlen ->]].
    rewrite length_app, Hlen, loader_batches_length, arange_length.
    unfold len. rewrite Nat2Z.id. reflexivity.
  - intros s idxs s' Hs. apply bind_Ok in Hs.
    destruct Hs as [batch [_ Hs]]. exact (Hbatch _ _ _ Hs).
Qed.

(** X20: Evaluation changes nothing that training produced: after the loop the
    transformer, the head (parameters and gradients) and the optimizer are
    what they were, and the loop has recorded one loss value and one entry of
    each statistic per batch of the test loader. *)
Theorem eval_loop_changes_no_parameter `{Torchvision} `{Notebook}
    (ds : TiffDataset) (batch_size : nat) (size : Z) (st st' : train_state) :
  (0 < batch_size)%nat ->
  eval_loop ds batch_size size st = Ok st' ->
  let n := loader_len (length (images ds)) batch_size in
  dinov2 st' = dinov2 st /\ model st' = model st /\ optim st' = optim st /\
  length (losses st') = (length (losses st) + n)%nat /\
  length (tps st') = (length (tps st) + n)%nat /\
  length (fps st') = (length (fps st) + n)%nat /\
  length (fns st') = (length (fns st) + n)%nat /\
  length (tns st') = (length (tns st) + n)%nat.
Proof.
  intros _ Hl n.
  assert (Hframe : dinov2 st' = dinov2 st /\ model st' = model st /\
                   optim st' = optim st).
  { unfold eval_loop in Hl. revert Hl.
    apply (foldM_invariant _ (fun s => dinov2 s = dinov2 st /\
                                       model s = model st /\
                                       optim s = optim st)).
    - intros s idxs s' Hs [Hd [Hm Ho]]. apply bind_Ok in Hs.
      destruct Hs as [batch [_ Hs]]. apply eval_batch_Ok in Hs.
      destruct Hs as [Hd' [Hm' [Ho' _]]].
      rewrite Hd', Hm', Ho'. auto.
    - auto. }
  destruct Hframe as [Hd [Hm Ho]].
  split; [exact Hd|]. split; [exact Hm|]. split; [exact Ho|].
  repeat split;
    (eapply eval_loop_grows; [|exact Hl]);
    intros s batch s' Hs; apply eval_batch_Ok in Hs; tauto.
Qed.

Lemma In_slice {A : Type} (l : list A) (i j : nat) (x : A) :
  In x (slice l i j) -> In x l.
Proof.
  unfold slice. intros Hx.
  rewrite <- (firstn_skipn i l). apply in_or_app. right.
  rewrite <- (firstn_skipn (j - i) (skipn i l)). apply in_or_app. left.
  exact Hx.
Qed.

Lemma In_loader_batches (order : list Z) (batch_size : nat) (idxs : list Z)
    (i : Z) :
  In idxs (loader_batches order batch_size) -> In i idxs -> In i order.
Proof.
  unfold loader_batches. intros Hidxs Hi. apply in_map_iff in Hidxs.
  destruct Hidxs as [k [<- _]]. exact (In_slice _ _ _ _ Hi).
Qed.

Lemma eval_loop_returns `{Torchvision} `{Notebook} (ds : TiffDataset)
    (batch_size : nat) (size : Z) (st : train_state) :
  net_output_nonempty -> 0 < size ->
  (forall i, 0 <= i < len ds -> exists smp, getitem ds i = Ok smp) ->
  exists st', eval_loop ds batch_size size st = Ok st'.
Proof.
  intros Hnet Hsize Hget. unfold eval_loop. apply foldM_returns.
  intros s idxs Hidxs.
  destruct (mapM_returns (getitem ds) idxs) as [batch Hbatch].
  { intros i Hi. apply Hget. apply arange_In.
    exact (In_loader_batches _ _ _ _ Hidxs Hi). }
  rewrite Hbatch. cbn [bind]. apply eval_batch_returns; assumption.
Qed.

Lemma eval_loop_changes_no_parameter_witness :
  exists st',
    @eval_loop uint8_torchvision notebook_ex train_dataset_ex 3 1 state_ex
    = Ok st' /\
    @model notebook_ex st' = @model notebook_ex state_ex /\
    length (@losses notebook_ex st') = 2%nat.
Proof.
  destruct (@eval_loop_returns uint8_torchvision notebook_ex train_dataset_ex
              3 1 state_ex notebook_ex_net_output_nonempty) as [st' Hst].
  - lia.
  - intros i Hi. apply train_dataset_ex_getitem.
    unfold len in Hi. cbn in Hi.
    assert (Hc : i = 0 \/ i = 1 \/ i = 2 \/ i = 3) by lia.
    cbn. intuition auto.
  - exists st'. split; [exact Hst|].
    destruct (@eval_loop_changes_no_parameter uint8_torchvision notebook_ex
                train_dataset_ex 3 1 state_ex st' ltac:(lia) Hst)
      as [_ [Hm [_ [Hl _]]]].
    split; [exact Hm|exact Hl].
Defined.

(** ** Well-formed data never raises *)









(** ** Metrics of the evaluation run *)

Lemma range_step_one_group (n : nat) :
  (0 < n)%nat -> range_step 0 n n = [0%nat].
Proof.
  intros Hn. unfold range_step.
  replace ((n - 0 + n - 1) / n)%nat with 1%nat; [reflexivity|].
  apply (Nat.div_unique _ _ 1 (n - 1)); lia.
Qed.

Lemma slice_all {A : Type} (l : list A) (n : nat) :
  length l = n -> slice l 0 (0 + n) = l.
Proof.
  intros Hl. unfold slice. cbn [Nat.add skipn].
  rewrite Nat.sub_0_r. apply firstn_all2. lia.
Qed.

(** X23: The evaluation metrics are the training metric cell with the whole
    run as a single group: on the lists an evaluation run leaves (equally
    long, not empty) the three vectors are the one row that the cell for the
    training run computes with [num_batches = len(tps)]. *)
Theorem evaluation_metrics_one_group `{Notebook} (st : train_state) :
  tps st <> [] ->
  length (fps st) = length (tps st) ->
  length (fns st) = length (tps st) ->
  length (tns st) = length (tps st) ->
  exists accs f1_scores ious,
    evaluation_metrics st = Ok (accs, f1_scores, ious) /\
    calculate_metrics st (length (tps st))
    = Ok ([accs], [f1_scores], [ious]).
Proof.
  intros Hne Hfp Hfn Htn.
  assert (Hn : (0 < length (tps st))%nat)
    by (destruct (tps st); [congruence|cbn; lia]).
  unfold evaluation_metrics, calculate_metrics.
  destruct (Nat.eqb_spec (length (tps st)) 0) as [Hz|_]; [lia|].
  rewrite (range_step_one_group _ Hn). cbn [map].
  unfold epoch_metric.
  rewrite (slice_all (tps st) _ eq_refl), (slice_all (fps st) _ Hfp),
    (slice_all (fns st) _ Hfn), (slice_all (tns st) _ Htn).
  destruct (tps st) as [|tp0 tpr]; [congruence|].
  destruct (fps st) as [|fp0 fpr]; [discriminate|].
  destruct (fns st) as [|fn0 fnr]; [discriminate|].
  destruct (tns st) as [|tn0 tnr]; [discriminate|].
  do 3 eexists. split; reflexivity.
Qed.

Lemma evaluation_metrics_one_group_witness :
  exists st' accs f1_scores ious,
    @eval_loop uint8_torchvision notebook_ex train_dataset_ex 3 1 state_ex
    = Ok st' /\
    @evaluation_metrics notebook_ex st' = Ok (accs, f1_scores, ious) /\
    @calculate_metrics notebook_ex st' (length (@tps notebook_ex st'))
    = Ok ([accs], [f1_scores], [ious]).
Proof.
  destruct (@eval_loop_returns uint8_torchvision notebook_ex train_dataset_ex
              3 1 state_ex notebook_ex_net_output_nonempty) as [st' Hst].
  - lia.
  - intros i Hi. apply train_dataset_ex_getitem.
    unfold len in Hi. cbn in Hi.
    assert (Hc : i = 0 \/ i = 1 \/ i = 2 \/ i = 3) by lia.
    cbn. intuition auto.
  - assert (Hlen : forall (proj : @train_state notebook_ex ->
                                  list (list (list Z))),
               (forall s batch s', @eval_batch notebook_ex 1 s batch = Ok s' ->
                  exists x, proj s' = proj s ++ [x]) ->
               length (proj st') = (length (proj state_ex) + 2)%nat).
    { intros proj Hp.
      exact (@eval_loop_grows uint8_torchvision notebook_ex _ proj
               train_dataset_ex 3 1 state_ex st' Hp Hst). }
    assert (Htp : length (@tps notebook_ex st') = 2%nat).
    { apply (Hlen tps). intros s b s' Hs. apply eval_batch_Ok in Hs. tauto. }
    assert (Hfp : length (@fps notebook_ex st') = 2%nat).
    { apply (Hlen fps). intros s b s' Hs. apply eval_batch_Ok in Hs. tauto. }
    assert (Hfn : length (@fns notebook_ex st') = 2%nat).
    { apply (Hlen fns). intros s b s' Hs. apply eval_batch_Ok in Hs. tauto. }
    assert (Htn : length (@tns notebook_ex st') = 2%nat).
    { apply (Hlen tns). intros s b s' Hs. apply eval_batch_Ok in Hs. tauto. }
    destruct (@evaluation_metrics_one_group notebook_ex st')
      as [accs [f1_scores [ious [He Hc]]]].
    + intros Hnil. rewrite Hnil in Htp. discriminate.
    + congruence.
    + congruence.
    + congruence.
    + exists st', accs, f1_scores, ious.
      split; [exact Hst|]. split; [exact He|exact Hc].
Defined.

(** ** Counting parameters *)

Lemma count_parameters_sum (parameters : list parameter) (trainable : bool) :
  fst (count_parameters parameters trainable)
  = fold_right Z.add 0 (snd (count_parameters parameters trainable)).
Proof. reflexivity. Qed.

(** X24: Trainable and frozen parameters split the module: the two counts add
    up to the number of elements of all parameters, the two lists together
    have one entry per parameter, and with sizes that are not negative neither
    count exceeds the total. *)
Theorem count_parameters_partition (parameters : list parameter) :
  let total := fold_right Z.add 0 (map numel parameters) in
  fst (count_parameters parameters true)
  + fst (count_parameters parameters false) = total /\
  (length (snd (count_parameters parameters true))
   + length (snd (count_parameters parameters false)))%nat
  = length parameters /\
  ((forall p, In p parameters -> 0 <= numel p) ->
   forall trainable,
     0 <= fst (count_parameters parameters trainable) <= total).
Proof.
  cbv zeta. unfold count_parameters. cbn [fst snd].
  induction parameters as [|p ps [IHsum [IHlen IHle]]].
  - cbn. repeat split; intros; lia.
  - cbn [map filter fold_right length].
    destruct (requires_grad p) eqn:Hrg; cbn [Bool.eqb map fold_right length].
    + split; [lia|]. split; [lia|].
      intros Hpos trainable.
      assert (Hp : 0 <= numel p) by (apply Hpos; left; reflexivity).
      assert (Hps : forall q, In q ps -> 0 <= numel q)
        by (intros q Hq; apply Hpos; right; exact Hq).
      pose proof (IHle Hps trainable) as IH.
      destruct trainable; cbn [Bool.eqb map fold_right]; lia.
    + split; [lia|]. split; [lia|].
      intros Hpos trainable.
      assert (Hp : 0 <= numel p) by (apply Hpos; left; reflexivity).
      assert (Hps : forall q, In q ps -> 0 <= numel q)
        by (intros q Hq; apply Hpos; right; exact Hq).
      pose proof (IHle Hps trainable) as IH.
      destruct trainable; cbn [Bool.eqb map fold_right]; lia.
Qed.

(** ** Which pixels of the stored mask an item shows *)





